(** * aerospike-code-challenge: the orchestration driver of [main.go]

    The program talks to a Kubernetes cluster through [kubernetes.Interface].
    [Run] and [Cleanup] are embedded as programs over the requests they send
    ([Prog]); a clientset is a handler of those requests over some cluster
    state, so everything proved about the order of calls and about error
    propagation holds for every clientset.  Statements about the resulting
    cluster state are made against [fake], an in-memory object tracker that
    follows the Resource Client contract of the spec; statements about the
    delivery of watch events are made against a model of the spec's informer
    subsystem, to which [Run] hands the three callbacks of the source. *)

From Stdlib Require Import Ascii.
From stdpp Require Import gmap strings list fin_maps.

Local Open Scope string_scope.

(** ** Kubernetes API objects (the fields [main.go] reads or writes) *)

Module metav1.
Record ObjectMeta := {
  Name : string;
  Namespace : string;
  Labels : gmap string string
}.

Record ListOptions := { LabelSelector : string }.

(** [metav1.ObjectMeta{Name: n}] and [{Name: n, Namespace: ns}]: the other
    fields keep their zero value. *)
Definition named (n : string) : ObjectMeta :=
  {| Name := n; Namespace := ""; Labels := ∅ |}.
Definition namedIn (n ns : string) : ObjectMeta :=
  {| Name := n; Namespace := ns; Labels := ∅ |}.
End metav1.

Module v1.
Record Container := { Name : string; Image : string }.
Record PodSpec := { Containers : list Container }.
Record Pod := { Pod_ObjectMeta : metav1.ObjectMeta; Spec : PodSpec }.
Record Namespace := { Namespace_ObjectMeta : metav1.ObjectMeta }.
End v1.

Definition namespaceName : string := "aerospike".

Record SimplePod := { Name : string; Namespace : string }.

Definition SimplePodFromPod (pod : v1.Pod) : SimplePod :=
  {| Name := metav1.Name (v1.Pod_ObjectMeta pod);
     Namespace := metav1.Namespace (v1.Pod_ObjectMeta pod) |}.

(** ** Go errors *)

Inductive StatusReason :=
  NotFound | AlreadyExists | BadRequest | Unavailable | Expired | Canceled.

(** An [error] is either a status returned by the API client or the value
    built by [fmt.Errorf] with a [%w] verb, which keeps the formatted message
    and the wrapped error. *)
Inductive error :=
| StatusError (reason : StatusReason) (message : string)
| wrapError (msg : string) (err : error).

Definition Error (e : error) : string :=
  match e with
  | StatusError _ message => message
  | wrapError msg _ => msg
  end.

Definition Unwrap (e : error) : option error :=
  match e with
  | StatusError _ _ => None
  | wrapError _ err => Some err
  end.

(** [fmt.Errorf(prefix + "%w", err)]. *)
Definition Errorf (prefix : string) (err : error) : error :=
  wrapError (prefix ++ Error err) err.

(** A Go result pair [(T, error)]. *)
Inductive result (T : Type) :=
| Ok (x : T)
| Err (err : error).
Arguments Ok {T} x.
Arguments Err {T} err.

Definition failure {T} (r : result T) : option error :=
  match r with
  | Ok _ => None
  | Err err => Some err
  end.

(** ** Log lines (zerolog events) *)

Inductive Level := InfoLevel | FatalLevel.

Inductive Field :=
| Strings (l : list string)
| Pods (l : list SimplePod)
| OnePod (p : SimplePod)
| ErrField (e : error).

Record LogLine := {
  level : Level;
  fields : list (string * Field);
  message : string
}.

Definition Info (fs : list (string * Field)) (msg : string) : LogLine :=
  {| level := InfoLevel; fields := fs; message := msg |}.

Definition Fatal (err : error) (msg : string) : LogLine :=
  {| level := FatalLevel; fields := [("error", ErrField err)]; message := msg |}.

(** ** Informer callbacks *)

(** The dynamic values an informer hands to a handler as [any]. *)
Inductive any :=
| nilAny
| PodPtr (p : option v1.Pod)
| DeletedFinalStateUnknown (Key : string) (Obj : any).

(** A Go call either completes or panics. *)
Inductive outcome (T : Type) :=
| Done (x : T)
| Panic (msg : string).
Arguments Done {T} x.
Arguments Panic {T} msg.

(** The unchecked type assertion of [x] to a pointer to [v1.Pod], followed
    by the dereference of that pointer. *)
Definition assertPod (x : any) : outcome v1.Pod :=
  match x with
  | PodPtr (Some pod) => Done pod
  | PodPtr None => Panic "runtime error: invalid memory address or nil pointer dereference"
  | nilAny => Panic "interface conversion: interface {} is nil, not *v1.Pod"
  | DeletedFinalStateUnknown _ _ =>
      Panic "interface conversion: interface {} is cache.DeletedFinalStateUnknown, not *v1.Pod"
  end.

Definition onPodAdd (pod : any) : outcome LogLine :=
  match assertPod pod with
  | Done p =>
      Done (Info [("pod", OnePod (SimplePodFromPod p))]
                 "informer received pod creation event")
  | Panic msg => Panic msg
  end.

Definition onPodUpdate (oldPod newPod : any) : outcome LogLine :=
  match assertPod oldPod with
  | Done o =>
      match assertPod newPod with
      | Done n =>
          Done (Info [("old", OnePod (SimplePodFromPod o));
                      ("new", OnePod (SimplePodFromPod n))]
                     "informer received pod updated event")
      | Panic msg => Panic msg
      end
  | Panic msg => Panic msg
  end.

Definition onPodDelete (pod : any) : outcome LogLine :=
  match assertPod pod with
  | Done p =>
      Done (Info [("pod", OnePod (SimplePodFromPod p))]
                 "informer received pod deletion event")
  | Panic msg => Panic msg
  end.

(** [cache.ResourceEventHandlerFuncs]. *)
Record ResourceEventHandlerFuncs := {
  AddFunc : any -> outcome LogLine;
  UpdateFunc : any -> any -> outcome LogLine;
  DeleteFunc : any -> outcome LogLine
}.

(** ** Requests to the clientset *)

Inductive Request :=
| NamespacesList (opts : metav1.ListOptions)
| NamespacesCreate (ns : v1.Namespace)
| NamespacesGet (name : string)
| NamespacesDelete (name : string)
| PodsCreate (namespace : string) (pod : v1.Pod)
| PodsList (namespace : string) (opts : metav1.ListOptions)
| PodsGet (namespace name : string)
| PodsDelete (namespace name : string).

Definition Response (r : Request) : Type :=
  match r with
  | NamespacesList _ => result (list v1.Namespace)
  | NamespacesCreate _ => result v1.Namespace
  | NamespacesGet _ => result v1.Namespace
  | NamespacesDelete _ => result unit
  | PodsCreate _ _ => result v1.Pod
  | PodsList _ _ => result (list v1.Pod)
  | PodsGet _ _ => result v1.Pod
  | PodsDelete _ _ => result unit
  end.

Definition failed {r : Request} : Response r -> option error :=
  match r with
  | NamespacesList _ | NamespacesCreate _ | NamespacesGet _
  | NamespacesDelete _ | PodsCreate _ _ | PodsList _ _ | PodsGet _ _
  | PodsDelete _ _ => failure
  end.

(** ** Programs over the clientset *)

Inductive InformerAction :=
| StartFactory
| AddEventHandler (h : ResourceEventHandlerFuncs).

Inductive Prog (A : Type) : Type :=
| Ret (a : A)
| Call (r : Request) (k : Response r -> Prog A)
| Log (l : LogLine) (k : Prog A)
| Informer (a : InformerAction) (k : Prog A).
Arguments Ret {A} a.
Arguments Call {A} r k.
Arguments Log {A} l k.
Arguments Informer {A} a k.

Fixpoint bind {A B} (m : Prog A) (f : A -> Prog B) : Prog B :=
  match m with
  | Ret a => f a
  | Call r k => Call r (fun x => bind (k x) f)
  | Log l k => Log l (bind k f)
  | Informer a k => Informer a (bind k f)
  end.

Definition call (r : Request) : Prog (Response r) := Call r Ret.
Definition logInfo (fs : list (string * Field)) (msg : string) : Prog unit :=
  Log (Info fs msg) (Ret tt).
Definition informer (a : InformerAction) : Prog unit := Informer a (Ret tt).

Declare Scope prog_scope.
Delimit Scope prog_scope with prog.
Notation "x <- m ;; k" := (bind m (fun x => k))
  (at level 100, m at next level, right associativity) : prog_scope.
Notation "m ;;; k" := (bind m (fun _ => k))
  (at level 100, right associativity) : prog_scope.
Local Open Scope prog_scope.

(** ** [Run] and [Cleanup] *)

Definition podHandlers : ResourceEventHandlerFuncs :=
  {| AddFunc := onPodAdd; UpdateFunc := onPodUpdate; DeleteFunc := onPodDelete |}.

Definition nsSpec : v1.Namespace :=
  {| v1.Namespace_ObjectMeta := metav1.named namespaceName |}.

Definition podSpec : v1.Pod :=
  {| v1.Pod_ObjectMeta := metav1.namedIn "hello-world" namespaceName;
     v1.Spec := {| v1.Containers :=
                     [ {| v1.Name := "hello-world"; v1.Image := "hello-world" |} ] |} |}.

Definition label : string := "k8s-app=kube-dns".

Definition noOptions : metav1.ListOptions := {| metav1.LabelSelector := "" |}.

Definition Run : Prog (option error) :=
  informer StartFactory ;;;
  informer (AddEventHandler podHandlers) ;;;
  namespaceList <- call (NamespacesList noOptions) ;;
  match namespaceList with
  | Err err => Ret (Some (Errorf "failed to list namespaces: " err))
  | Ok items =>
      let namespaces :=
        map (fun ns => metav1.Name (v1.Namespace_ObjectMeta ns)) items in
      logInfo [("namespaces", Strings namespaces)] "k8s namespaces" ;;;
      created <- call (NamespacesCreate nsSpec) ;;
      match created with
      | Err err =>
          Ret (Some (Errorf ("failed to create " ++ namespaceName ++ " namespace: ") err))
      | Ok _ =>
          logInfo [] ("created new namespace " ++ namespaceName) ;;;
          createdPod <- call (PodsCreate namespaceName podSpec) ;;
          match createdPod with
          | Err err => Ret (Some (Errorf "failed to create pod: " err))
          | Ok _ =>
              logInfo [] "created hello-world pod" ;;;
              podList <- call (PodsList "" {| metav1.LabelSelector := label |}) ;;
              match podList with
              | Err err =>
                  Ret (Some (Errorf ("failed to list pods with label " ++ label ++ ": ") err))
              | Ok podItems =>
                  let pods := map SimplePodFromPod podItems in
                  logInfo [("pods", Pods pods)] ("pods with label " ++ label) ;;;
                  Ret None
              end
          end
      end
  end.

Definition Cleanup : Prog (option error) :=
  deleted <- call (PodsDelete namespaceName "hello-world") ;;
  match deleted with
  | Err err => Ret (Some (Errorf "failed to delete pod: " err))
  | Ok _ =>
      logInfo [] "deleted hello-world pod" ;;;
      deletedNs <- call (NamespacesDelete namespaceName) ;;
      match deletedNs with
      | Err err => Ret (Some (Errorf "failed to delete namespace: " err))
      | Ok _ =>
          logInfo [] ("deleted " ++ namespaceName ++ " namespace") ;;;
          Ret None
      end
  end.

(** [log.Fatal()...Msg] writes the line and exits with status 1; falling off
    the end of [main] exits with status 0.  [configErr] and [clientsetErr]
    are the errors of [clientcmd.BuildConfigFromFlags] and
    [kubernetes.NewForConfig]. *)
Definition fatal (err : error) (msg : string) : Prog nat :=
  Log (Fatal err msg) (Ret 1).

Definition main (configErr clientsetErr : option error) : Prog nat :=
  logInfo [] "connecting to K8s" ;;;
  match configErr with
  | Some err => fatal err "failed to build config"
  | None =>
      match clientsetErr with
      | Some err => fatal err "failed to create clientset from config"
      | None =>
          err <- Run ;;
          match err with
          | Some err => fatal err "failed to run Aerospike Code Challenge"
          | None =>
              err <- Cleanup ;;
              match err with
              | Some err => fatal err "failed to cleanup after Aerospike Code Challenge"
              | None => Ret 0
              end
          end
      end
  end.

(** ** Running a program against a clientset *)

Record Event := { request : Request; returned : option error }.

Section Exec.
Context {C : Type}.

(** A clientset over cluster states [C] answers every request. *)
Definition Interface := forall r : Request, C -> Response r * C.

Record World := {
  cluster : C;
  calls : list Event;
  logs : list LogLine;
  started : nat;
  handlers : list ResourceEventHandlerFuncs
}.

Definition boot (c : C) : World :=
  {| cluster := c; calls := []; logs := []; started := 0; handlers := [] |}.

Definition doCall (h : Interface) (r : Request) (w : World) : Response r * World :=
  let (x, c) := h r (cluster w) in
  (x, {| cluster := c;
         calls := calls w ++ [ {| request := r; returned := failed x |} ];
         logs := logs w; started := started w; handlers := handlers w |}).

Definition doLog (l : LogLine) (w : World) : World :=
  {| cluster := cluster w; calls := calls w; logs := logs w ++ [l];
     started := started w; handlers := handlers w |}.

Definition doInformer (a : InformerAction) (w : World) : World :=
  match a with
  | StartFactory =>
      {| cluster := cluster w; calls := calls w; logs := logs w;
         started := S (started w); handlers := handlers w |}
  | AddEventHandler f =>
      {| cluster := cluster w; calls := calls w; logs := logs w;
         started := started w; handlers := handlers w ++ [f] |}
  end.

Fixpoint exec {A} (h : Interface) (p : Prog A) (w : World) : A * World :=
  match p with
  | Ret a => (a, w)
  | Call r k => let (x, w') := doCall h r w in exec h (k x) w'
  | Log l k => exec h k (doLog l w)
  | Informer a k => exec h k (doInformer a w)
  end.

End Exec.
Arguments Interface C : clear implicits.
Arguments World C : clear implicits.

(** ** An in-memory clientset *)

(** Modelled from the spec: the label query of section 4.5, whose selector
    syntax is the clientset's, not the repository's.  The fragment covered is
    a comma-separated list of terms [key=value] (the label has that value) and
    [key] (the label exists); the empty selector selects everything. *)
Inductive Requirement :=
| Exists (key : string)
| Equals (key value : string).

Fixpoint cut (sep : ascii) (s : string) : option (string * string) :=
  match s with
  | EmptyString => None
  | String c rest =>
      if decide (c = sep) then Some ("", rest)
      else match cut sep rest with
           | Some (a, b) => Some (String c a, b)
           | None => None
           end
  end.

Fixpoint splitOn (sep : ascii) (s : string) : list string :=
  match s with
  | EmptyString => [""]
  | String c rest =>
      if decide (c = sep) then "" :: splitOn sep rest
      else match splitOn sep rest with
           | [] => [String c ""]
           | f :: fs => String c f :: fs
           end
  end.

(** Modelled from the spec: one term of a selector. *)
Definition parseRequirement (term : string) : Requirement :=
  match cut "="%char term with
  | Some (k, v) => Equals k v
  | None => Exists term
  end.

(** Modelled from the spec: the requirements of a selector string. *)
Definition parseSelector (s : string) : list Requirement :=
  if decide (s = "") then [] else map parseRequirement (splitOn ","%char s).

(** Modelled from the spec: a label set against one requirement. *)
Definition satisfies (labels : gmap string string) (r : Requirement) : bool :=
  match r with
  | Exists k => bool_decide (is_Some (labels !! k))
  | Equals k v => bool_decide (labels !! k = Some v)
  end.

(** Modelled from the spec: a label set matches a selector when it satisfies
    all its requirements. *)
Definition Matches (selector : string) (labels : gmap string string) : bool :=
  forallb (satisfies labels) (parseSelector selector).

(** Modelled from the spec: the ChangeEvent of section 3, a tagged variant
    carrying one object and the resource version that delivers it. *)
Inductive ChangeEvent :=
| Added (obj : v1.Pod) (resourceVersion : nat)
| Modified (obj : v1.Pod) (resourceVersion : nat)
| Deleted (obj : v1.Pod) (resourceVersion : nat).

Definition object (ev : ChangeEvent) : v1.Pod :=
  match ev with
  | Added obj _ | Modified obj _ | Deleted obj _ => obj
  end.

Definition delivered (ev : ChangeEvent) : nat :=
  match ev with
  | Added _ rv | Modified _ rv | Deleted _ rv => rv
  end.

(** Modelled from the spec: the Resource Client of section 6, which the
    repository takes from client-go and does not contain.  [List] returns the
    items of the collection (of every namespace when the namespace is empty)
    that match the label selector, [Create] fails with [AlreadyExists] if the
    identity collides, [Get] and [Delete] fail with [NotFound] if the object is
    absent.  Objects are keyed by name (namespaces) and by namespace and name
    (pods), as in the object tracker of [fake.NewSimpleClientset] that the
    repository's test runs against; a failed request leaves the state as it
    was.  Every successful mutation takes the next resource version, and a
    mutation of the pod collection is recorded as the ChangeEvent that a
    [Watch] of the collection streams. *)
Record Cluster := {
  namespaces : gmap string v1.Namespace;
  pods : gmap (string * string) v1.Pod;
  version : nat;
  podEvents : list ChangeEvent
}.

Definition emptyCluster : Cluster :=
  {| namespaces := ∅; pods := ∅; version := 0; podEvents := [] |}.

Definition notFound {T} (kind name : string) : result T :=
  Err (StatusError NotFound (kind ++ " " ++ name ++ " not found")).

Definition alreadyExists {T} (kind name : string) : result T :=
  Err (StatusError AlreadyExists (kind ++ " " ++ name ++ " already exists")).

Definition podLabels (pod : v1.Pod) : gmap string string :=
  metav1.Labels (v1.Pod_ObjectMeta pod).

(** Modelled from the spec: the object [Create] stores and returns, filed in
    the namespace of the request. *)
Definition inNamespace (namespace : string) (pod : v1.Pod) : v1.Pod :=
  {| v1.Pod_ObjectMeta :=
       {| metav1.Name := metav1.Name (v1.Pod_ObjectMeta pod);
          metav1.Namespace := namespace;
          metav1.Labels := podLabels pod |};
     v1.Spec := v1.Spec pod |}.

(** Modelled from the spec: [List] of section 6 on the namespace collection. *)
Definition listNamespaces (opts : metav1.ListOptions) (c : Cluster) : list v1.Namespace :=
  filter (fun ns => Matches (metav1.LabelSelector opts)
                            (metav1.Labels (v1.Namespace_ObjectMeta ns)) = true)
         (map snd (map_to_list (namespaces c))).

(** Modelled from the spec: [List] of section 6 on the pod collection; the
    optional namespace is absent when it is the empty string. *)
Definition listPods (namespace : string) (opts : metav1.ListOptions) (c : Cluster) : list v1.Pod :=
  map snd
    (filter (fun kv : string * string * v1.Pod =>
               (namespace = "" \/ kv.1.1 = namespace) /\
               Matches (metav1.LabelSelector opts) (podLabels kv.2) = true)
            (map_to_list (pods c))).

(** Modelled from the spec: the Resource Client of section 6 as a clientset
    over [Cluster]. *)
Definition fake : Interface Cluster :=
  fun r c =>
    match r as r return Response r * Cluster with
    | NamespacesList opts => (Ok (listNamespaces opts c), c)
    | NamespacesCreate ns =>
        let name := metav1.Name (v1.Namespace_ObjectMeta ns) in
        match namespaces c !! name with
        | Some _ => (alreadyExists "namespaces" name, c)
        | None =>
            (Ok ns, {| namespaces := <[name := ns]> (namespaces c); pods := pods c;
                       version := S (version c); podEvents := podEvents c |})
        end
    | NamespacesGet name =>
        match namespaces c !! name with
        | Some ns => (Ok ns, c)
        | None => (notFound "namespaces" name, c)
        end
    | NamespacesDelete name =>
        match namespaces c !! name with
        | Some _ =>
            (Ok tt, {| namespaces := delete name (namespaces c); pods := pods c;
                       version := S (version c); podEvents := podEvents c |})
        | None => (notFound "namespaces" name, c)
        end
    | PodsCreate namespace pod =>
        let name := metav1.Name (v1.Pod_ObjectMeta pod) in
        let objNs := metav1.Namespace (v1.Pod_ObjectMeta pod) in
        if decide (objNs = "" \/ objNs = namespace) then
          match pods c !! (namespace, name) with
          | Some _ => (alreadyExists "pods" name, c)
          | None =>
              let stored := inNamespace namespace pod in
              (Ok stored,
               {| namespaces := namespaces c;
                  pods := <[(namespace, name) := stored]> (pods c);
                  version := S (version c);
                  podEvents := podEvents c ++ [Added stored (S (version c))] |})
          end
        else
          (Err (StatusError BadRequest
                  "request namespace does not match object namespace"), c)
    | PodsList namespace opts => (Ok (listPods namespace opts c), c)
    | PodsGet namespace name =>
        match pods c !! (namespace, name) with
        | Some pod => (Ok pod, c)
        | None => (notFound "pods" name, c)
        end
    | PodsDelete namespace name =>
        match pods c !! (namespace, name) with
        | Some pod =>
            (Ok tt, {| namespaces := namespaces c;
                       pods := delete (namespace, name) (pods c);
                       version := S (version c);
                       podEvents := podEvents c ++ [Deleted pod (S (version c))] |})
        | None => (notFound "pods" name, c)
        end
    end.

(** ** The watch subsystem *)

(** The Reflector, Local Store, Delta Queue and Event Dispatcher of sections
    3 and 4.1 to 4.4 of the spec are client-go's shared informer: the
    repository registers its three callbacks with it and contains none of the
    subsystem itself, so all of it is modelled from the spec.  One unbroken
    watch session is modelled, run to the end of its stream and then drained;
    the interleaving with the driver is not. *)

(** Modelled from the spec: the identity of a ResourceObject of section 3,
    namespace and name. *)
Definition identity (obj : v1.Pod) : string * string :=
  (metav1.Namespace (v1.Pod_ObjectMeta obj), metav1.Name (v1.Pod_ObjectMeta obj)).

(** Modelled from the spec: the Snapshot of section 3. *)
Record Snapshot := { items : list v1.Pod; resourceVersion : nat }.

(** Modelled from the spec: an entry of the Delta Queue of section 4.3, the
    event and the value the Local Store held for its identity before the
    event was applied (section 4.4 hands the previous value to [onUpdate]). *)
Record Delta := { change : ChangeEvent; previous : option v1.Pod }.

(** Modelled from the spec: the Local Store of section 4.2 and the Delta
    Queue the Reflector of section 4.1 feeds. *)
Record Reflector := {
  store : gmap (string * string) v1.Pod;
  queue : list Delta
}.

(** Modelled from the spec: [Upsert] and [Remove] of section 4.2. *)
Definition Upsert (obj : v1.Pod) (st : gmap (string * string) v1.Pod) :
    gmap (string * string) v1.Pod :=
  <[identity obj := obj]> st.

Definition Remove (id : string * string) (st : gmap (string * string) v1.Pod) :
    gmap (string * string) v1.Pod :=
  delete id st.

Definition idle : Reflector := {| store := ∅; queue := [] |}.

(** Modelled from the spec: step 1 of section 4.1, the store is replaced by
    the snapshot and a synthetic [Added] is enqueued for every item. *)
Definition bootstrap (snap : Snapshot) (r : Reflector) : Reflector :=
  {| store := foldr Upsert ∅ (items snap);
     queue := queue r ++
       map (fun obj => {| change := Added obj (resourceVersion snap);
                          previous := store r !! identity obj |}) (items snap) |}.

(** Modelled from the spec: step 3 of section 4.1, the event is applied to
    the store, then enqueued. *)
Definition applyEvent (r : Reflector) (ev : ChangeEvent) : Reflector :=
  {| store := match ev with
              | Added obj _ | Modified obj _ => Upsert obj (store r)
              | Deleted obj _ => Remove (identity obj) (store r)
              end;
     queue := queue r ++
       [ {| change := ev; previous := store r !! identity (object ev) |} ] |}.

(** Modelled from the spec: steps 1 to 3 of section 4.1 on one stream. *)
Definition reflect (snap : Snapshot) (stream : list ChangeEvent) : Reflector :=
  foldl applyEvent (bootstrap snap idle) stream.

(** Modelled from the spec: [List] and [Watch] of section 6 as the Reflector
    uses them; [observe c0 c] is what the subsystem holds when its snapshot
    was taken in cluster state [c0] and the cluster has moved on to [c]. *)
Definition snapshotOf (c0 : Cluster) : Snapshot :=
  {| items := listPods "" noOptions c0; resourceVersion := version c0 |}.

Definition watchFrom (since : nat) (c : Cluster) : list ChangeEvent :=
  filter (fun ev => since < delivered ev) (podEvents c).

Definition observe (c0 c : Cluster) : Reflector :=
  reflect (snapshotOf c0) (watchFrom (version c0) c).

(** Modelled from the spec: a callback invocation of section 4.4, the handle
    of the registration and the payload. *)
Inductive Invocation :=
| OnAdd (handle : nat) (obj : any)
| OnUpdate (handle : nat) (oldObj newObj : any)
| OnDelete (handle : nat) (obj : any).

Definition ptr (obj : v1.Pod) : any := PodPtr (Some obj).

(** Modelled from the spec: the callback an entry selects (section 4.4).  An
    [Added] for an identity the store already holds is an idempotent upsert
    and is delivered as an update (section 8); a deletion carries the
    last-known value. *)
Definition invocationOf (handle : nat) (d : Delta) : Invocation :=
  match change d, previous d with
  | Added obj _, None | Modified obj _, None => OnAdd handle (ptr obj)
  | Added obj _, Some old | Modified obj _, Some old =>
      OnUpdate handle (ptr old) (ptr obj)
  | Deleted obj _, None => OnDelete handle (ptr obj)
  | Deleted _ _, Some old => OnDelete handle (ptr old)
  end.

Definition invoke (f : ResourceEventHandlerFuncs) (i : Invocation) : outcome LogLine :=
  match i with
  | OnAdd _ obj => AddFunc f obj
  | OnUpdate _ old new => UpdateFunc f old new
  | OnDelete _ obj => DeleteFunc f obj
  end.

(** Modelled from the spec: [Drain] of section 4.4, every entry, in queue
    order, goes to every registration; the outcome of a callback is recorded
    and delivery goes on. *)
Definition deliver (registrations : list ResourceEventHandlerFuncs) (d : Delta) :
    list (Invocation * outcome LogLine) :=
  imap (fun handle f =>
          let i := invocationOf handle d in (i, invoke f i)) registrations.

Definition Drain (q : list Delta) (registrations : list ResourceEventHandlerFuncs) :
    list (Invocation * outcome LogLine) :=
  concat (map (deliver registrations) q).

(** ** Vocabulary of the statements *)

(** The requests of the one-shot sequence, in the order of the source. *)
Definition runSteps : list Request :=
  [ NamespacesList noOptions;
    NamespacesCreate nsSpec;
    PodsCreate namespaceName podSpec;
    PodsList "" {| metav1.LabelSelector := label |} ].

Definition cleanupSteps : list Request :=
  [ PodsDelete namespaceName "hello-world";
    NamespacesDelete namespaceName ].

Definition succeeded (e : Event) : Prop := returned e = None.

(** The phrase with which the source reports the failure of a request. *)
Definition failurePrefix (r : Request) : string :=
  match r with
  | NamespacesList _ => "failed to list namespaces: "
  | NamespacesCreate _ => "failed to create aerospike namespace: "
  | PodsCreate _ _ => "failed to create pod: "
  | PodsList _ _ => "failed to list pods with label k8s-app=kube-dns: "
  | PodsDelete _ _ => "failed to delete pod: "
  | NamespacesDelete _ => "failed to delete namespace: "
  | NamespacesGet _ | PodsGet _ _ => ""
  end.

(** [evs] is a run of [steps] that returned [r]: on [nil] every step was
    issued once, in order, and succeeded; on an error the calls are an initial
    part of [steps], all but the last succeeded, and the error wraps the
    failure of the last one under that step's phrase. *)
Definition sequenced (steps : list Request) (evs : list Event) (r : option error) : Prop :=
  match r with
  | None => map request evs = steps /\ Forall succeeded evs
  | Some err =>
      exists (before : list Event) (req : Request) (cause : error),
        evs = (before ++ [ {| request := req; returned := Some cause |} ])%list /\
        Forall succeeded before /\
        map request evs `prefix_of` steps /\
        err = Errorf (failurePrefix req) cause
  end.

(** Every call is the next step of [steps], and every call that is followed
    by another one had succeeded. *)
Definition issuedInOrder (steps : list Request) (evs : list Event) : Prop :=
  map request evs `prefix_of` steps /\
  forall (i : nat) (e : Event),
    evs !! i = Some e -> S i < length evs -> succeeded e.

(** ... and the run ends well ([ok]) exactly when every step was issued and
    succeeded. *)
Definition inOrder (steps : list Request) (evs : list Event) (ok : Prop) : Prop :=
  issuedInOrder steps evs /\
  (ok <-> map request evs = steps /\ Forall succeeded evs).

(** The calls made by running [p] from world [w]. *)
Definition issued {C A} (h : Interface C) (p : Prog A) (w : World C) : list Event :=
  drop (length (calls w)) (calls (exec h p w).2).

(** The two one-shot sequences of the driver. *)
Inductive OneShot := RunSequence | CleanupSequence.

Definition program (s : OneShot) : Prog (option error) :=
  match s with
  | RunSequence => Run
  | CleanupSequence => Cleanup
  end.

Definition stepsOf (s : OneShot) : list Request :=
  match s with
  | RunSequence => runSteps
  | CleanupSequence => cleanupSteps
  end.

Definition connecting : LogLine := Info [] "connecting to K8s".

(** The error, if any, that makes [main] exit with status 1 once the
    clientset is built. *)
Definition mainError {C} (h : Interface C) (w : World C) : option error :=
  let run := exec h Run (doLog connecting w) in
  match run.1 with
  | Some err => Some err
  | None => (exec h Cleanup run.2).1
  end.

Ltac client_step h :=
  cbn -[String.append drop]; unfold doCall, doLog; cbn -[String.append drop];
  match goal with
  | |- context [h ?r ?c] => destruct (h r c) as [[?|?] ?]
  end;
  cbn -[String.append drop].

Ltac only_issued :=
  rewrite <- ?app_assoc; rewrite drop_app_length; cbn -[String.append].

Ltac failing_after before :=
  exists before; eexists _, _; cbn;
  split; [reflexivity |];
  split; [repeat constructor |];
  split; [eexists; reflexivity | reflexivity].

(** ** Scenarios *)

(** A cluster that already has the namespace. *)
Definition occupied : Cluster :=
  {| namespaces := {[ namespaceName := nsSpec ]}; pods := ∅;
     version := 1; podEvents := [] |}.

(** A cluster left behind by an interrupted run: the pod is there, the
    namespace is not. *)
Definition stray : Cluster :=
  {| namespaces := ∅; pods := {[ (namespaceName, "hello-world") := podSpec ]};
     version := 1; podEvents := [Added podSpec 1] |}.

(** A cluster with a labelled pod in another namespace. *)
Definition dns : v1.Pod :=
  {| v1.Pod_ObjectMeta :=
       {| metav1.Name := "coredns"; metav1.Namespace := "kube-system";
          metav1.Labels := {[ "k8s-app" := "kube-dns" ]} |};
     v1.Spec := {| v1.Containers := [ {| v1.Name := "coredns"; v1.Image := "coredns" |} ] |} |}.

Definition withDns : Cluster :=
  {| namespaces := {[ "kube-system" := {| v1.Namespace_ObjectMeta := metav1.named "kube-system" |} ]};
     pods := {[ ("kube-system", "coredns") := dns ]};
     version := 2; podEvents := [Added dns 2] |}.

(** The state [Run] leaves when it succeeds from [c]. *)
Definition afterRun (c : Cluster) : Cluster :=
  {| namespaces := <[namespaceName := nsSpec]> (namespaces c);
     pods := <[(namespaceName, "hello-world") := podSpec]> (pods c);
     version := S (S (version c));
     podEvents := podEvents c ++ [Added podSpec (S (S (version c)))] |}.

(** Every object of the cluster is stored under its own identity, as it is
    in every state the clientset reaches from [emptyCluster]. *)
Definition wellKeyed (c : Cluster) : bool :=
  forallb (fun kv : string * v1.Namespace =>
             bool_decide (metav1.Name (v1.Namespace_ObjectMeta kv.2) = kv.1))
          (map_to_list (namespaces c)) &&
  forallb (fun kv : string * string * v1.Pod => bool_decide (identity kv.2 = kv.1))
          (map_to_list (pods c)).

(** No event of the watch history is newer than the cluster's resource
    version, as in every state the clientset reaches from [emptyCluster]. *)
Definition settled (c : Cluster) : bool :=
  forallb (fun ev => bool_decide (delivered ev <= version c)) (podEvents c).

(** The cluster after the clientset has answered the requests [rs]. *)
Definition perform (rs : list Request) (c : Cluster) : Cluster :=
  foldl (fun c r => (fake r c).2) c rs.

(** The names a namespace listing returns. *)
Definition listing (c : Cluster) : list string :=
  map (fun ns => metav1.Name (v1.Namespace_ObjectMeta ns)) (listNamespaces noOptions c).

Definition occurrences (x : string) (l : list string) : nat :=
  length (filter (fun y => y = x) l).

(** ** The test suite of the repository *)

(** The outcome of a Ginkgo closure: every expectation held, one of them did
    not (the closure stops there), or the closure panicked. *)
Inductive Verdict :=
| Passed
| Failed (expectation : string)
| Panicked (msg : string).

(** An expectation that the error is nil. *)
Definition shouldNotHaveOccurred (err : option error) : Verdict :=
  match err with
  | None => Passed
  | Some _ => Failed "err should not have occurred"
  end.

(** The [BeforeEach] of the suite, from the call of [Run] on; the clientset
    it runs against is a fresh fake clientset. *)
Definition BeforeEach : Prog Verdict :=
  err <- Run ;; Ret (shouldNotHaveOccurred err).

Definition AfterEach : Prog Verdict :=
  err <- Cleanup ;; Ret (shouldNotHaveOccurred err).

(** The spec that the namespace aerospike should have been created. *)
Definition It_namespace : Prog Verdict :=
  got <- call (NamespacesGet "aerospike") ;;
  match got with
  | Err _ => Ret (Failed "err should not have occurred")
  | Ok ns =>
      if decide (metav1.Name (v1.Namespace_ObjectMeta ns) = "aerospike")
      then Ret Passed
      else Ret (Failed "ns.ObjectMeta.Name should equal aerospike")
  end.

(** The spec that the pod hello-world should have been created; indexing the
    first container of an empty slice panics. *)
Definition It_pod : Prog Verdict :=
  got <- call (PodsGet "aerospike" "hello-world") ;;
  match got with
  | Err _ => Ret (Failed "err should not have occurred")
  | Ok pod =>
      if decide (metav1.Name (v1.Pod_ObjectMeta pod) = "hello-world") then
        match v1.Containers (v1.Spec pod) with
        | [] => Ret (Panicked "index out of range [0] with length 0")
        | first :: _ =>
            if decide (v1.Image first = "hello-world")
            then Ret Passed
            else Ret (Failed "pod.Spec.Containers[0].Image should equal hello-world")
        end
      else Ret (Failed "pod.ObjectMeta.Name should equal hello-world")
  end.

(** ** More vocabulary *)

(** The lines a run adds to the log. *)
Definition logged {C A} (h : Interface C) (p : Prog A) (w : World C) : list LogLine :=
  drop (length (logs w)) (logs (exec h p w).2).

Definition isFatal (l : LogLine) : bool :=
  match level l with
  | FatalLevel => true
  | InfoLevel => false
  end.

(** The number of calls that returned without error. *)
Definition successes (evs : list Event) : nat :=
  sum_list (map (fun e => match returned e with None => 1 | Some _ => 0 end) evs).

(** [n] successive runs of the process against the same cluster: the exit
    statuses and the cluster left behind. *)
Fixpoint rerun {C} (h : Interface C) (n : nat) (c : C) : list nat * C :=
  match n with
  | 0 => ([], c)
  | S n =>
      let final := exec h (main None None) (boot c) in
      let (codes, c') := rerun h n (cluster final.2) in
      (final.1 :: codes, c')
  end.

(** A cluster with the namespace and a pod of two containers. *)
Definition sidecar : v1.Pod :=
  {| v1.Pod_ObjectMeta := metav1.namedIn "hello-world" namespaceName;
     v1.Spec := {| v1.Containers :=
                     [ {| v1.Name := "hello-world"; v1.Image := "hello-world" |};
                       {| v1.Name := "proxy"; v1.Image := "envoy" |} ] |} |}.

Definition withSidecar : Cluster :=
  {| namespaces := {[ namespaceName := nsSpec ]};
     pods := {[ (namespaceName, "hello-world") := sidecar ]};
     version := 2; podEvents := [Added sidecar 2] |}.

(** A cluster whose pod hello-world has no container. *)
Definition bare : v1.Pod :=
  {| v1.Pod_ObjectMeta := metav1.namedIn "hello-world" namespaceName;
     v1.Spec := {| v1.Containers := [] |} |}.

Definition withBare : Cluster :=
  {| namespaces := ∅; pods := {[ (namespaceName, "hello-world") := bare ]};
     version := 1; podEvents := [Added bare 1] |}.

(** The cluster before the first of the requests [rs] and after each of
    them. *)
Fixpoint trajectory (rs : list Request) (c : Cluster) : list Cluster :=
  match rs with
  | [] => [c]
  | r :: rs => c :: trajectory rs (fake r c).2
  end.

(** The two invocations the pod of [Run] can give rise to, with the lines
    the callbacks of the source log for them. *)
Definition hello : SimplePod := {| Name := "hello-world"; Namespace := "aerospike" |}.

Definition addOfHello : Invocation * outcome LogLine :=
  (OnAdd 0 (ptr podSpec),
   Done (Info [("pod", OnePod hello)] "informer received pod creation event")).

Definition deleteOfHello : Invocation * outcome LogLine :=
  (OnDelete 0 (ptr podSpec),
   Done (Info [("pod", OnePod hello)] "informer received pod deletion event")).

(** * Properties *)

(** ** Programs and their runs *)

Section Runs.
Context {C : Type} (h : Interface C).

Lemma exec_bind {A B} (m : Prog A) (f : A -> Prog B) (w : World C) :
  exec h (bind m f) w = exec h (f (exec h m w).1) (exec h m w).2.
Proof.
  revert w. induction m as [a | r k IH | l k IH | a k IH]; intros w; simpl.
  - reflexivity.
  - destruct (doCall h r w) as [x w']. apply IH.
  - apply IH.
  - apply IH.
Qed.

(** Calls are only ever appended. *)
Lemma exec_calls {A} (p : Prog A) (w : World C) :
  exists evs, calls (exec h p w).2 = (calls w ++ evs)%list.
Proof.
  revert w. induction p as [a | r k IH | l k IH | a k IH]; intros w; simpl.
  - exists []. by rewrite app_nil_r.
  - unfold doCall. destruct (h r (cluster w)) as [x c].
    destruct (IH x {| cluster := c;
                      calls := calls w ++ [ {| request := r; returned := failed x |} ];
                      logs := logs w; started := started w;
                      handlers := handlers w |}) as [evs Hevs].
    rewrite Hevs. simpl. rewrite <- app_assoc. eauto.
  - destruct (IH (doLog l w)) as [evs Hevs]. rewrite Hevs. eauto.
  - destruct (IH (doInformer a w)) as [evs Hevs]. rewrite Hevs.
    destruct a; eauto.
Qed.

Lemma issued_spec {A} (p : Prog A) (w : World C) :
  calls (exec h p w).2 = (calls w ++ issued h p w)%list.
Proof.
  unfold issued. destruct (exec_calls p w) as [evs ->].
  by rewrite drop_app_length.
Qed.
End Runs.

Lemma sequenced_inOrder (steps : list Request) (evs : list Event) (r : option error) :
  sequenced steps evs r -> inOrder steps evs (r = None).
Proof.
  destruct r as [err|]; simpl.
  - intros (before & req & cause & -> & Hok & Hpre & _). repeat split; try done.
    + intros i e Hi Hlt. rewrite length_app in Hlt. simpl in Hlt.
      rewrite lookup_app_l in Hi by lia.
      eapply Forall_lookup_1; eauto.
    + intros [_ Hall]. apply Forall_app in Hall as [_ Hlast].
      by inversion Hlast.
  - intros [Hreq Hall]. repeat split; try done.
    + by rewrite Hreq.
    + intros i e Hi _. eapply Forall_lookup_1; eauto.
Qed.

(** A failed call in a sequenced run is its last call, and the run returned
    that failure wrapped under the step's phrase. *)
Lemma sequenced_failure (steps : list Request) (evs : list Event) (r : option error)
    (req : Request) (cause : error) :
  sequenced steps evs r ->
  {| request := req; returned := Some cause |} ∈ evs ->
  r = Some (Errorf (failurePrefix req) cause) /\
  last evs = Some {| request := req; returned := Some cause |} /\
  map request evs `prefix_of` steps.
Proof.
  destruct r as [err|]; simpl.
  - intros (before & req' & cause' & -> & Hok & Hpre & ->) Hin.
    apply elem_of_app in Hin as [Hin | Hin].
    + rewrite Forall_forall in Hok. by specialize (Hok _ Hin).
    + apply list_elem_of_singleton in Hin. inversion Hin; subst.
      by rewrite last_snoc.
  - intros [_ Hall] Hin. rewrite Forall_forall in Hall.
    by specialize (Hall _ Hin).
Qed.

(** A sequenced run in which no call failed went through all the steps. *)
Lemma sequenced_all_succeeded (steps : list Request) (evs : list Event) (r : option error) :
  sequenced steps evs r -> Forall succeeded evs -> map request evs = steps /\ r = None.
Proof.
  destruct r as [err|]; simpl.
  - intros (before & req & cause & -> & _) Hall.
    apply Forall_app in Hall as [_ Hlast]. by inversion Hlast.
  - by intros [Hreq _] _.
Qed.

Lemma sequenced_app_ok (s1 s2 : list Request) (e1 e2 : list Event) (r : option error) :
  sequenced s1 e1 None -> sequenced s2 e2 r -> sequenced (s1 ++ s2) (e1 ++ e2) r.
Proof.
  intros [Hreq1 Hall1]. destruct r as [err|]; simpl.
  - intros (before & req & cause & -> & Hok & Hpre & ->).
    exists (e1 ++ before)%list, req, cause. repeat split.
    + by rewrite app_assoc.
    + by apply Forall_app.
    + rewrite map_app, Hreq1. by apply prefix_app.
  - intros [Hreq2 Hall2]. split.
    + by rewrite map_app, Hreq1, Hreq2.
    + by apply Forall_app.
Qed.

Lemma sequenced_app_err (s1 s2 : list Request) (e1 : list Event) (err : error) :
  sequenced s1 e1 (Some err) -> sequenced (s1 ++ s2) e1 (Some err).
Proof.
  simpl. intros (before & req & cause & -> & Hok & Hpre & ->).
  exists before, req, cause. repeat split; try done.
  by apply prefix_app_r.
Qed.

(** ** The one-shot sequences, for every clientset *)

Section Sequences.
Context {C : Type} (h : Interface C).

Lemma Run_sequenced (w : World C) :
  sequenced runSteps (issued h Run w) (exec h Run w).1.
Proof.
  unfold issued, Run. destruct w as [c cs ls n hs].
  client_step h; [client_step h; [client_step h; [client_step h |] |] |];
    only_issued.
  - split; [reflexivity | repeat constructor].
  - failing_after [ {| request := NamespacesList noOptions; returned := None |};
                    {| request := NamespacesCreate nsSpec; returned := None |};
                    {| request := PodsCreate namespaceName podSpec; returned := None |} ].
  - failing_after [ {| request := NamespacesList noOptions; returned := None |};
                    {| request := NamespacesCreate nsSpec; returned := None |} ].
  - failing_after [ {| request := NamespacesList noOptions; returned := None |} ].
  - failing_after (@nil Event).
Qed.

Lemma Cleanup_sequenced (w : World C) :
  sequenced cleanupSteps (issued h Cleanup w) (exec h Cleanup w).1.
Proof.
  unfold issued, Cleanup. destruct w as [c cs ls n hs].
  client_step h; [client_step h |]; only_issued.
  - split; [reflexivity | repeat constructor].
  - failing_after [ {| request := PodsDelete namespaceName "hello-world";
                       returned := None |} ].
  - failing_after (@nil Event).
Qed.

Lemma calls_doLog (l : LogLine) (w : World C) : calls (doLog l w) = calls w.
Proof. reflexivity. Qed.

Lemma main_exec (w : World C) :
  exec h (main None None) w =
    let run := exec h Run (doLog connecting w) in
    match run.1 with
    | Some err => (1, doLog (Fatal err "failed to run Aerospike Code Challenge") run.2)
    | None =>
        let cleanup := exec h Cleanup run.2 in
        match cleanup.1 with
        | Some err =>
            (1, doLog (Fatal err "failed to cleanup after Aerospike Code Challenge")
                      cleanup.2)
        | None => (0, cleanup.2)
        end
    end.
Proof.
  unfold main. cbn [bind logInfo exec]. rewrite exec_bind.
  fold connecting.
  destruct (exec h Run (doLog connecting w)) as [[err|] w1]; cbn -[Cleanup]; [done |].
  rewrite exec_bind.
  by destruct (exec h Cleanup w1) as [[err|] w2].
Qed.

Lemma main_exit (w : World C) :
  (exec h (main None None) w).1 = 0 <-> mainError h w = None.
Proof.
  rewrite main_exec. unfold mainError. cbn zeta.
  destruct (exec h Run (doLog connecting w)) as [[err|] w1]; cbn -[Cleanup].
  - split; discriminate.
  - destruct (exec h Cleanup w1) as [[err|] w2]; cbn; split; (done || discriminate).
Qed.

Lemma main_sequenced (w : World C) :
  sequenced (runSteps ++ cleanupSteps) (issued h (main None None) w) (mainError h w).
Proof.
  unfold issued at 1, mainError. rewrite main_exec. cbn zeta.
  pose proof (Run_sequenced (doLog connecting w)) as HR.
  pose proof (issued_spec h Run (doLog connecting w)) as HRc.
  destruct (exec h Run (doLog connecting w)) as [[err|] w1];
    cbn [fst snd] in *.
  - rewrite calls_doLog, HRc, calls_doLog, drop_app_length.
    by apply sequenced_app_err.
  - pose proof (Cleanup_sequenced w1) as HC.
    pose proof (issued_spec h Cleanup w1) as HCc.
    assert (calls (match (exec h Cleanup w1).1 with
                   | Some err =>
                       (1, doLog (Fatal err "failed to cleanup after Aerospike Code Challenge")
                                 (exec h Cleanup w1).2)
                   | None => (0, (exec h Cleanup w1).2)
                   end).2 = calls (exec h Cleanup w1).2) as ->.
    { by destruct (exec h Cleanup w1) as [[err|] w2]. }
    rewrite HCc, HRc, calls_doLog, <- app_assoc, drop_app_length.
    by apply sequenced_app_ok.
Qed.

(** C1. Whatever the clientset answers, the calls of [Run] are exactly the
    steps list namespaces, create namespace, create pod, query pods by label,
    one call each and in this order, up to and including the first that
    fails; those of [Cleanup] are delete pod, delete namespace in the same
    way; and in [main] the calls of [Cleanup] follow those of [Run].  Nothing
    is returned before a call was made: [nil] is returned only after every
    step was issued and succeeded, an error only by the call that failed,
    which is then the last; so a call is issued if and only if every earlier
    one has returned without error, and as long as no call fails all the
    steps are performed. *)
Theorem one_shot_sequence_in_order (w : World C) :
  sequenced runSteps (issued h Run w) (exec h Run w).1 /\
  sequenced cleanupSteps (issued h Cleanup w) (exec h Cleanup w).1 /\
  sequenced (runSteps ++ cleanupSteps) (issued h (main None None) w) (mainError h w) /\
  ((exec h (main None None) w).1 = 0 <-> mainError h w = None) /\
  (Forall succeeded (issued h Run w) ->
   map request (issued h Run w) = runSteps /\ (exec h Run w).1 = None) /\
  (Forall succeeded (issued h Cleanup w) ->
   map request (issued h Cleanup w) = cleanupSteps /\ (exec h Cleanup w).1 = None) /\
  (Forall succeeded (issued h (main None None) w) ->
   map request (issued h (main None None) w) = (runSteps ++ cleanupSteps)%list /\
   (exec h (main None None) w).1 = 0) /\
  inOrder runSteps (issued h Run w) ((exec h Run w).1 = None) /\
  inOrder cleanupSteps (issued h Cleanup w) ((exec h Cleanup w).1 = None) /\
  inOrder (runSteps ++ cleanupSteps) (issued h (main None None) w)
          ((exec h (main None None) w).1 = 0).
Proof.
  pose proof (Run_sequenced w) as HR.
  pose proof (Cleanup_sequenced w) as HC.
  pose proof (main_sequenced w) as HM.
  split; [done |]. split; [done |]. split; [done |].
  split; [apply main_exit |].
  split; [by apply sequenced_all_succeeded |].
  split; [by apply sequenced_all_succeeded |].
  split.
  { intros Hall. destruct (sequenced_all_succeeded _ _ _ HM Hall) as [Hreq Hnil].
    split; [done | by apply main_exit]. }
  split; [by apply sequenced_inOrder |].
  split; [by apply sequenced_inOrder |].
  destruct (sequenced_inOrder _ _ _ HM) as [Hord Hiff].
  split; [done |]. by rewrite main_exit.
Qed.
End Sequences.

Lemma stepsOf_NoDup (s : OneShot) : NoDup (stepsOf s).
Proof.
  destruct s; unfold stepsOf, runSteps, cleanupSteps;
    repeat (apply NoDup_cons; split;
            [ rewrite ?elem_of_cons, elem_of_nil; intros H; intuition discriminate |]);
    apply NoDup_nil_2.
Qed.

Lemma failurePrefix_identifies (s : OneShot) (r1 r2 : Request) :
  r1 ∈ stepsOf s -> r2 ∈ stepsOf s ->
  failurePrefix r1 = failurePrefix r2 -> r1 = r2.
Proof.
  destruct s; unfold stepsOf, runSteps, cleanupSteps;
    rewrite ?elem_of_cons, !elem_of_nil;
    intros H1 H2 Hp; destruct_or?; subst; (done || discriminate).
Qed.

Section Failures.
Context {C : Type} (h : Interface C).

Lemma program_sequenced (s : OneShot) (w : World C) :
  sequenced (stepsOf s) (issued h (program s) w) (exec h (program s) w).1.
Proof. destruct s; [apply Run_sequenced | apply Cleanup_sequenced]. Qed.

(** C2. Whatever the clientset, if a call of [Run] or of [Cleanup] fails
    with [cause], the function returns the error that wraps [cause] under
    the phrase of the failing step, a phrase no other step of the sequence
    shares; the failed call is the last call issued, and the calls made are
    an initial part of the sequence, each step at most once: no later step
    is called and nothing is retried. *)
Theorem failure_aborts_sequence (w : World C) (s : OneShot)
    (req : Request) (cause : error) :
  {| request := req; returned := Some cause |} ∈ issued h (program s) w ->
  let err := Errorf (failurePrefix req) cause in
  (exec h (program s) w).1 = Some err /\
  Unwrap err = Some cause /\
  Error err = failurePrefix req +:+ Error cause /\
  last (issued h (program s) w) = Some {| request := req; returned := Some cause |} /\
  map request (issued h (program s) w) `prefix_of` stepsOf s /\
  NoDup (map request (issued h (program s) w)) /\
  (forall other : Request,
      other ∈ stepsOf s -> failurePrefix other = failurePrefix req -> other = req).
Proof.
  intros Hin err.
  destruct (sequenced_failure _ _ _ _ _ (program_sequenced s w) Hin)
    as (Hret & Hlast & Hpre).
  repeat split; try done.
  - destruct Hpre as [k Hk]. pose proof (stepsOf_NoDup s) as Hnd.
    rewrite Hk in Hnd. by apply NoDup_app in Hnd as [? _].
  - intros other Hother. apply (failurePrefix_identifies s); [done |].
    destruct Hpre as [k Hk]. rewrite Hk. apply elem_of_app. left.
    apply list_elem_of_fmap. by eexists; split; [| exact Hin].
Qed.
End Failures.

Lemma failure_aborts_sequence_witness :
  {| request := NamespacesCreate nsSpec;
     returned := Some (StatusError AlreadyExists "namespaces aerospike already exists") |}
    ∈ issued fake Run (boot occupied) /\
  (exec fake Run (boot occupied)).1 =
    Some (Errorf "failed to create aerospike namespace: "
                 (StatusError AlreadyExists "namespaces aerospike already exists")).
Proof.
  assert ({| request := NamespacesCreate nsSpec;
             returned := Some (StatusError AlreadyExists "namespaces aerospike already exists") |}
            ∈ issued fake Run (boot occupied)) as Hin.
  { vm_compute. repeat constructor. }
  split; [exact Hin |].
  apply (failure_aborts_sequence fake (boot occupied) RunSequence _ _ Hin).
Defined.

(** ** The in-memory clientset *)

Lemma fake_create_namespace (c : Cluster) :
  namespaces c !! namespaceName = None ->
  fake (NamespacesCreate nsSpec) c =
    (Ok nsSpec,
     {| namespaces := <[namespaceName := nsSpec]> (namespaces c); pods := pods c;
        version := S (version c); podEvents := podEvents c |}).
Proof. intros H. unfold fake. cbn -[lookup insert]. by rewrite H. Qed.

Lemma fake_create_namespace_exists (c : Cluster) (ns : v1.Namespace) :
  namespaces c !! namespaceName = Some ns ->
  fake (NamespacesCreate nsSpec) c = (alreadyExists "namespaces" namespaceName, c).
Proof. intros H. unfold fake. cbn -[lookup insert]. by rewrite H. Qed.

Lemma fake_create_pod (c : Cluster) :
  pods c !! (namespaceName, "hello-world") = None ->
  fake (PodsCreate namespaceName podSpec) c =
    (Ok podSpec,
     {| namespaces := namespaces c;
        pods := <[(namespaceName, "hello-world") := podSpec]> (pods c);
        version := S (version c);
        podEvents := podEvents c ++ [Added podSpec (S (version c))] |}).
Proof.
  intros H. unfold fake. cbn -[lookup insert decide].
  destruct (decide _) as [_ | Hno]; [| destruct Hno; by right].
  by rewrite H.
Qed.

Lemma fake_create_pod_exists (c : Cluster) (pod : v1.Pod) :
  pods c !! (namespaceName, "hello-world") = Some pod ->
  fake (PodsCreate namespaceName podSpec) c = (alreadyExists "pods" "hello-world", c).
Proof.
  intros H. unfold fake. cbn -[lookup insert decide].
  destruct (decide _) as [_ | Hno]; [| destruct Hno; by right].
  by rewrite H.
Qed.

Lemma fake_delete_pod (c : Cluster) (pod : v1.Pod) :
  pods c !! (namespaceName, "hello-world") = Some pod ->
  fake (PodsDelete namespaceName "hello-world") c =
    (Ok tt,
     {| namespaces := namespaces c;
        pods := delete (namespaceName, "hello-world") (pods c);
        version := S (version c);
        podEvents := podEvents c ++ [Deleted pod (S (version c))] |}).
Proof. intros H. unfold fake. by rewrite H. Qed.

Lemma fake_delete_pod_absent (c : Cluster) :
  pods c !! (namespaceName, "hello-world") = None ->
  fake (PodsDelete namespaceName "hello-world") c = (notFound "pods" "hello-world", c).
Proof. intros H. unfold fake. by rewrite H. Qed.

Lemma fake_delete_namespace (c : Cluster) (ns : v1.Namespace) :
  namespaces c !! namespaceName = Some ns ->
  fake (NamespacesDelete namespaceName) c =
    (Ok tt,
     {| namespaces := delete namespaceName (namespaces c); pods := pods c;
        version := S (version c); podEvents := podEvents c |}).
Proof. intros H. unfold fake. by rewrite H. Qed.

Lemma fake_delete_namespace_absent (c : Cluster) :
  namespaces c !! namespaceName = None ->
  fake (NamespacesDelete namespaceName) c = (notFound "namespaces" namespaceName, c).
Proof. intros H. unfold fake. by rewrite H. Qed.

Lemma fake_list_namespaces (opts : metav1.ListOptions) (c : Cluster) :
  fake (NamespacesList opts) c = (Ok (listNamespaces opts c), c).
Proof. reflexivity. Qed.

Lemma fake_list_pods (namespace : string) (opts : metav1.ListOptions) (c : Cluster) :
  fake (PodsList namespace opts) c = (Ok (listPods namespace opts c), c).
Proof. reflexivity. Qed.

Ltac run_fake :=
  repeat progress
    (cbn -[String.append fake listNamespaces listPods lookup insert delete];
     unfold doCall, doLog;
     rewrite ?fake_list_namespaces, ?fake_list_pods).

Lemma fake_Run_from (w : World Cluster) :
  namespaces (cluster w) !! namespaceName = None ->
  pods (cluster w) !! (namespaceName, "hello-world") = None ->
  exec fake Run w =
    (None,
     {| cluster := afterRun (cluster w);
        calls := calls w ++ map (fun r => {| request := r; returned := None |}) runSteps;
        logs := logs w ++
          [ Info [("namespaces", Strings (listing (cluster w)))] "k8s namespaces";
            Info [] "created new namespace aerospike";
            Info [] "created hello-world pod";
            Info [("pods",
                   Pods (map SimplePodFromPod
                             (listPods "" {| metav1.LabelSelector := label |}
                                       (afterRun (cluster w)))))]
                 "pods with label k8s-app=kube-dns" ];
        started := S (started w);
        handlers := handlers w ++ [podHandlers] |}).
Proof.
  intros Hns Hpod. unfold Run. run_fake.
  rewrite (fake_create_namespace _ Hns). run_fake.
  rewrite fake_create_pod by done. run_fake.
  by rewrite <- !app_assoc.
Qed.

Lemma fake_Run_success (c : Cluster) :
  namespaces c !! namespaceName = None ->
  pods c !! (namespaceName, "hello-world") = None ->
  exec fake Run (boot c) =
    (None,
     {| cluster := afterRun c;
        calls := map (fun r => {| request := r; returned := None |}) runSteps;
        logs :=
          [ Info [("namespaces", Strings (listing c))] "k8s namespaces";
            Info [] "created new namespace aerospike";
            Info [] "created hello-world pod";
            Info [("pods",
                   Pods (map SimplePodFromPod
                             (listPods "" {| metav1.LabelSelector := label |} (afterRun c))))]
                 "pods with label k8s-app=kube-dns" ];
        started := 1;
        handlers := [podHandlers] |}).
Proof. intros Hns Hpod. by rewrite (fake_Run_from (boot c) Hns Hpod). Qed.

Lemma fake_Run_returns_nil (c : Cluster) :
  (exec fake Run (boot c)).1 = None ->
  namespaces c !! namespaceName = None /\
  pods c !! (namespaceName, "hello-world") = None.
Proof.
  destruct (namespaces c !! namespaceName) as [ns|] eqn:Hns.
  { unfold Run. run_fake. rewrite (fake_create_namespace_exists c ns Hns). by run_fake. }
  destruct (pods c !! (namespaceName, "hello-world")) as [pod|] eqn:Hpod; [| done].
  unfold Run. run_fake. rewrite (fake_create_namespace c Hns). run_fake.
  rewrite (fake_create_pod_exists _ pod) by done. by run_fake.
Qed.

Lemma fake_Cleanup_success (w : World Cluster) (pod : v1.Pod) (ns : v1.Namespace) :
  pods (cluster w) !! (namespaceName, "hello-world") = Some pod ->
  namespaces (cluster w) !! namespaceName = Some ns ->
  exec fake Cleanup w =
    (None,
     {| cluster :=
          {| namespaces := delete namespaceName (namespaces (cluster w));
             pods := delete (namespaceName, "hello-world") (pods (cluster w));
             version := S (S (version (cluster w)));
             podEvents := podEvents (cluster w) ++ [Deleted pod (S (version (cluster w)))] |};
        calls := calls w ++
                 map (fun r => {| request := r; returned := None |}) cleanupSteps;
        logs := logs w ++ [ Info [] "deleted hello-world pod";
                            Info [] "deleted aerospike namespace" ];
        started := started w;
        handlers := handlers w |}).
Proof.
  intros Hpod Hns. unfold Cleanup. run_fake.
  rewrite (fake_delete_pod _ pod Hpod). run_fake.
  rewrite (fake_delete_namespace _ ns) by done. run_fake.
  by rewrite <- !app_assoc.
Qed.

Lemma fake_Cleanup_returns_nil (w : World Cluster) :
  (exec fake Cleanup w).1 = None ->
  is_Some (pods (cluster w) !! (namespaceName, "hello-world")) /\
  is_Some (namespaces (cluster w) !! namespaceName).
Proof.
  destruct (pods (cluster w) !! (namespaceName, "hello-world")) as [pod|] eqn:Hpod.
  2:{ unfold Cleanup. run_fake. rewrite fake_delete_pod_absent by done. by run_fake. }
  destruct (namespaces (cluster w) !! namespaceName) as [ns|] eqn:Hns; [by eauto |].
  unfold Cleanup. run_fake. rewrite (fake_delete_pod _ pod Hpod). run_fake.
  rewrite fake_delete_namespace_absent by done. by run_fake.
Qed.


(** ** What [Run] and [Cleanup] do to the in-memory cluster *)

(** C3. From a cluster with neither the namespace nor the pod, [Run] returns
    [nil] and leaves a cluster in which [Get] finds the namespace aerospike
    and, in it, the pod hello-world, whose spec has exactly one container,
    with image hello-world. *)
Theorem run_creates_namespace_and_pod (c : Cluster) :
  namespaces c !! namespaceName = None ->
  pods c !! (namespaceName, "hello-world") = None ->
  let final := exec fake Run (boot c) in
  final.1 = None /\
  (exists ns : v1.Namespace,
      (fake (NamespacesGet "aerospike") (cluster final.2)).1 = Ok ns /\
      metav1.Name (v1.Namespace_ObjectMeta ns) = "aerospike") /\
  (exists (pod : v1.Pod) (container : v1.Container),
      (fake (PodsGet "aerospike" "hello-world") (cluster final.2)).1 = Ok pod /\
      metav1.Name (v1.Pod_ObjectMeta pod) = "hello-world" /\
      metav1.Namespace (v1.Pod_ObjectMeta pod) = "aerospike" /\
      v1.Containers (v1.Spec pod) = [container] /\
      v1.Image container = "hello-world").
Proof.
  intros Hns Hpod final. unfold final. rewrite (fake_Run_success c Hns Hpod).
  cbn [fst snd cluster]. split; [done |]. split.
  - exists nsSpec. unfold fake, afterRun. cbn [namespaces].
    change "aerospike" with namespaceName. by rewrite lookup_insert_eq.
  - exists podSpec, {| v1.Name := "hello-world"; v1.Image := "hello-world" |}.
    unfold fake, afterRun. cbn [pods].
    change "aerospike" with namespaceName. by rewrite lookup_insert_eq.
Qed.

Lemma run_creates_namespace_and_pod_witness :
  (exec fake Run (boot emptyCluster)).1 = None /\
  pods (cluster (exec fake Run (boot emptyCluster)).2) !! (namespaceName, "hello-world")
    = Some podSpec.
Proof.
  destruct (run_creates_namespace_and_pod emptyCluster) as (Hok & _ & _);
    [reflexivity | reflexivity |].
  split; [exact Hok | vm_compute; reflexivity].
Defined.

(** C7. If the pod hello-world is absent from the namespace when [Cleanup]
    runs, the pod deletion fails with [NotFound], [Cleanup] returns that error
    wrapped, the namespace deletion is not issued and the cluster, its
    namespaces included, stays as it was. *)
Theorem cleanup_without_pod (w : World Cluster) :
  pods (cluster w) !! (namespaceName, "hello-world") = None ->
  let cause := StatusError NotFound "pods hello-world not found" in
  let final := exec fake Cleanup w in
  (fake (PodsDelete namespaceName "hello-world") (cluster w)).1 = Err cause /\
  final.1 = Some (Errorf "failed to delete pod: " cause) /\
  issued fake Cleanup w =
    [ {| request := PodsDelete namespaceName "hello-world"; returned := Some cause |} ] /\
  Forall (fun e => request e <> NamespacesDelete namespaceName) (issued fake Cleanup w) /\
  cluster final.2 = cluster w /\
  namespaces (cluster final.2) !! namespaceName = namespaces (cluster w) !! namespaceName.
Proof.
  intros Hpod cause final. unfold final, issued, Cleanup. run_fake.
  rewrite !fake_delete_pod_absent by done. run_fake.
  rewrite drop_app_length. repeat split; repeat constructor; done.
Qed.

Lemma cleanup_without_pod_witness :
  pods (cluster (boot occupied)) !! (namespaceName, "hello-world") = None /\
  namespaces (cluster (exec fake Cleanup (boot occupied)).2) !! namespaceName
    = Some nsSpec.
Proof.
  assert (pods (cluster (boot occupied)) !! (namespaceName, "hello-world") = None)
    as Hpod by reflexivity.
  split; [exact Hpod |].
  destruct (cleanup_without_pod (boot occupied) Hpod) as (_ & _ & _ & _ & _ & ->).
  vm_compute; reflexivity.
Defined.

(** C10. When [Run] and then [Cleanup] succeed, every namespace other than
    aerospike and every pod other than hello-world of aerospike is, after
    [Run] and after [Cleanup], what it was before; and after [Cleanup] the
    namespaces and pods of the cluster are those it started with. *)
Theorem run_cleanup_frame (c : Cluster) :
  (exec fake Run (boot c)).1 = None ->
  (exec fake Cleanup (exec fake Run (boot c)).2).1 = None ->
  let run := exec fake Run (boot c) in
  let cleanup := exec fake Cleanup run.2 in
  (forall name : string, name <> namespaceName ->
      namespaces (cluster run.2) !! name = namespaces c !! name /\
      namespaces (cluster cleanup.2) !! name = namespaces c !! name) /\
  (forall key : string * string, key <> (namespaceName, "hello-world") ->
      pods (cluster run.2) !! key = pods c !! key /\
      pods (cluster cleanup.2) !! key = pods c !! key) /\
  namespaces (cluster cleanup.2) = namespaces c /\
  pods (cluster cleanup.2) = pods c.
Proof.
  intros Hrun _ run cleanup. unfold cleanup, run. clear run cleanup.
  destruct (fake_Run_returns_nil c Hrun) as [Hns Hpod].
  rewrite (fake_Run_success c Hns Hpod). cbn [snd].
  rewrite (fake_Cleanup_success _ podSpec nsSpec);
    [| by apply lookup_insert_eq | by apply lookup_insert_eq].
  cbn [snd cluster namespaces pods afterRun].
  rewrite !delete_insert_id by done.
  repeat split; try done.
  - by apply lookup_insert_ne.
  - by apply lookup_insert_ne.
Qed.

Lemma run_cleanup_frame_witness :
  (exec fake Run (boot emptyCluster)).1 = None /\
  (exec fake Cleanup (exec fake Run (boot emptyCluster)).2).1 = None /\
  pods (cluster (exec fake Cleanup (exec fake Run (boot emptyCluster)).2).2) = ∅.
Proof.
  assert ((exec fake Run (boot emptyCluster)).1 = None) as Hrun by reflexivity.
  assert ((exec fake Cleanup (exec fake Run (boot emptyCluster)).2).1 = None)
    as Hcleanup by reflexivity.
  split; [exact Hrun |]. split; [exact Hcleanup |].
  apply (run_cleanup_frame emptyCluster Hrun Hcleanup).
Defined.

(** ** [main] *)

Section MainFailure.
Context {C : Type} (h : Interface C).

(** The result, the cluster and the calls of a run depend on the world it
    starts in only through the cluster. *)
Lemma exec_same_cluster {A} (p : Prog A) (w w' : World C) :
  cluster w = cluster w' ->
  (exec h p w).1 = (exec h p w').1 /\
  cluster (exec h p w).2 = cluster (exec h p w').2 /\
  issued h p w = issued h p w'.
Proof.
  intros Hc.
  cut (exists evs,
          (exec h p w).1 = (exec h p w').1 /\
          cluster (exec h p w).2 = cluster (exec h p w').2 /\
          calls (exec h p w).2 = (calls w ++ evs)%list /\
          calls (exec h p w').2 = (calls w' ++ evs)%list).
  { intros (evs & H1 & H2 & H3 & H4). repeat split; try done.
    unfold issued. by rewrite H3, H4, !drop_app_length. }
  revert w w' Hc.
  induction p as [a | r k IH | l k IH | a k IH]; intros w w' Hc; simpl.
  - exists []. by rewrite !app_nil_r.
  - unfold doCall. rewrite <- Hc. destruct (h r (cluster w)) as [x c].
    edestruct (IH x) as (evs & H1 & H2 & H3 & H4); [| 
      exists ({| request := r; returned := failed x |} :: evs);
      rewrite H3, H4; cbn [calls]; by rewrite <- !app_assoc ].
    reflexivity.
  - apply (IH (doLog l w) (doLog l w')). by destruct w, w'.
  - edestruct (IH (doInformer a w) (doInformer a w')) as (evs & H1 & H2 & H3 & H4).
    { by destruct a, w, w'. }
    exists evs. rewrite H3, H4. by destruct a.
Qed.
End MainFailure.

Section MainOutcome.
Context {C : Type} (h : Interface C).

(** C9. If [Run] returns an error, [main] logs it as fatal and exits with
    status 1; the calls of the process are those [Run] made, none of them a
    step of [Cleanup], and the cluster is left as [Run] left it: nothing
    that was created is torn down. *)
Theorem failed_run_skips_cleanup (c : C) (err : error) :
  (exec h Run (boot c)).1 = Some err ->
  let final := exec h (main None None) (boot c) in
  final.1 = 1 /\
  last (logs final.2) = Some (Fatal err "failed to run Aerospike Code Challenge") /\
  calls final.2 = calls (exec h Run (boot c)).2 /\
  Forall (fun e => request e ∉ cleanupSteps) (calls final.2) /\
  cluster final.2 = cluster (exec h Run (boot c)).2.
Proof.
  intros Hrun final. unfold final. clear final. rewrite main_exec. cbn zeta.
  destruct (exec_same_cluster h Run (doLog connecting (boot c)) (boot c))
    as (Hret & Hcl & Hiss); [done |].
  pose proof (issued_spec h Run (doLog connecting (boot c))) as Hcalls.
  pose proof (issued_spec h Run (boot c)) as Hcalls'.
  pose proof (Run_sequenced h (boot c)) as Hseq.
  rewrite Hrun in Hret, Hseq.
  destruct (exec h Run (doLog connecting (boot c))) as [r w1]. cbn [fst snd] in *.
  subst r. cbn [fst snd]. rewrite calls_doLog, Hcalls, Hcalls', Hiss.
  repeat split; try done.
  - cbn [doLog logs]. by rewrite last_snoc.
  - cbn [boot calls app]. destruct Hseq as (before & req & cause & Hev & _ & [k Hk] & _).
    apply Forall_forall. intros e He Hin.
    assert (request e ∈ runSteps) as Hr.
    { rewrite Hk. apply elem_of_app. left. by apply list_elem_of_fmap_2. }
    revert Hr Hin. unfold runSteps, cleanupSteps.
    rewrite !elem_of_cons, !elem_of_nil. intros Hr Hin.
    destruct_or?; try done; congruence.
Qed.
End MainOutcome.

Lemma failed_run_skips_cleanup_witness :
  (exec fake Run (boot stray)).1 =
    Some (Errorf "failed to create pod: "
                 (StatusError AlreadyExists "pods hello-world already exists")) /\
  (exec fake (main None None) (boot stray)).1 = 1 /\
  namespaces (cluster (exec fake (main None None) (boot stray)).2) !! namespaceName
    = Some nsSpec.
Proof.
  assert ((exec fake Run (boot stray)).1 =
            Some (Errorf "failed to create pod: "
                         (StatusError AlreadyExists "pods hello-world already exists")))
    as Hrun by reflexivity.
  split; [exact Hrun |].
  destruct (failed_run_skips_cleanup fake stray _ Hrun) as (Hexit & _ & _ & _ & ->).
  split; [exact Hexit | vm_compute; reflexivity].
Defined.

(** ** Listings of the in-memory cluster *)

Lemma filter_all {A} (P : A -> Prop) `{!forall x, Decision (P x)} (l : list A) :
  Forall P l -> filter P l = l.
Proof.
  induction 1 as [| x l Hx _ IH]; [done |].
  by rewrite filter_cons_True, IH.
Qed.

Lemma occurrences_absent (x : string) (l : list string) :
  x ∉ l -> occurrences x l = 0.
Proof.
  unfold occurrences. induction l as [| y l IH]; [done |].
  rewrite not_elem_of_cons. intros [Hne Hl].
  rewrite filter_cons_False by congruence. by apply IH.
Qed.

Lemma occurrences_once (x : string) (l : list string) :
  NoDup l -> x ∈ l -> occurrences x l = 1.
Proof.
  unfold occurrences. induction 1 as [| y l Hy Hnd IH]; [by rewrite elem_of_nil |].
  rewrite elem_of_cons. intros [-> | Hin].
  - rewrite filter_cons_True by done. cbn.
    pose proof (occurrences_absent y l Hy) as Hzero.
    unfold occurrences in Hzero. by rewrite Hzero.
  - rewrite filter_cons_False; [by apply IH |].
    intros ->. by apply Hy.
Qed.

Lemma keyed_values {K A} (f : A -> K) (l : list (K * A)) :
  Forall (fun kv => f kv.2 = kv.1) l -> map f (map snd l) = map fst l.
Proof.
  induction 1 as [| [k a] l Hk _ IH]; [done |].
  cbn in *. by rewrite Hk, IH.
Qed.

Lemma wellKeyed_spec (c : Cluster) :
  wellKeyed c = true <->
  (forall (k : string) (ns : v1.Namespace),
      namespaces c !! k = Some ns -> metav1.Name (v1.Namespace_ObjectMeta ns) = k) /\
  (forall (k : string * string) (pod : v1.Pod),
      pods c !! k = Some pod -> identity pod = k).
Proof.
  unfold wellKeyed. rewrite andb_true_iff, !forallb_forall.
  split.
  - intros [Hn Hp]. split.
    + intros k ns Hk. apply elem_of_map_to_list, list_elem_of_In in Hk.
      apply Hn in Hk. by apply bool_decide_eq_true in Hk.
    + intros k pod Hk. apply elem_of_map_to_list, list_elem_of_In in Hk.
      apply Hp in Hk. by apply bool_decide_eq_true in Hk.
  - intros [Hn Hp]. split.
    + intros [k ns] Hk. apply list_elem_of_In, elem_of_map_to_list in Hk.
      apply bool_decide_eq_true. by apply Hn.
    + intros [k pod] Hk. apply list_elem_of_In, elem_of_map_to_list in Hk.
      apply bool_decide_eq_true. by apply Hp.
Qed.

(** The clientset keeps objects under their identity. *)
Lemma fake_wellKeyed (r : Request) (c : Cluster) :
  wellKeyed c = true -> wellKeyed (fake r c).2 = true.
Proof.
  rewrite !wellKeyed_spec. intros [Hn Hp].
  destruct r as [opts | ns | name | name | namespace pod | namespace opts
                 | namespace name | namespace name]; cbn -[lookup insert delete decide].
  - done.
  - destruct (namespaces c !! _) eqn:E; cbn -[lookup insert delete]; [done |].
    split; [| done]. intros k ns' [[<- <-] | [_ Hk]]%lookup_insert_Some; eauto.
  - by destruct (namespaces c !! _).
  - destruct (namespaces c !! _) eqn:E; cbn -[lookup insert delete]; [| done].
    split; [| done]. intros k ns' [_ Hk]%lookup_delete_Some. eauto.
  - destruct (decide _); [| done].
    destruct (pods c !! _) eqn:E; cbn -[lookup insert delete]; [done |].
    split; [done |]. intros k pod' [[<- <-] | [_ Hk]]%lookup_insert_Some; eauto.
  - done.
  - by destruct (pods c !! _).
  - destruct (pods c !! _) eqn:E; cbn -[lookup insert delete]; [| done].
    split; [done |]. intros k pod' [_ Hk]%lookup_delete_Some. eauto.
Qed.

Lemma perform_wellKeyed (rs : list Request) (c : Cluster) :
  wellKeyed c = true -> wellKeyed (perform rs c) = true.
Proof.
  unfold perform. revert c. induction rs as [| r rs IH]; intros c Hc; [done |].
  cbn. by apply IH, fake_wellKeyed.
Qed.

Lemma listing_keys (c : Cluster) :
  wellKeyed c = true -> listing c = (map_to_list (namespaces c)).*1.
Proof.
  intros [Hn _]%wellKeyed_spec. unfold listing, listNamespaces.
  rewrite filter_all by (by apply Forall_forall).
  apply keyed_values, Forall_forall. intros [k ns] Hk.
  by apply Hn, elem_of_map_to_list.
Qed.

Lemma listing_absent (c : Cluster) (name : string) :
  wellKeyed c = true -> namespaces c !! name = None -> occurrences name (listing c) = 0.
Proof.
  intros Hc Hname. apply occurrences_absent. rewrite listing_keys by done.
  intros ([k ns] & -> & Hk%elem_of_map_to_list)%list_elem_of_fmap.
  cbn in Hname. congruence.
Qed.

Lemma listing_present (c : Cluster) (name : string) :
  wellKeyed c = true -> is_Some (namespaces c !! name) -> occurrences name (listing c) = 1.
Proof.
  intros Hc [ns Hname]. apply occurrences_once; rewrite listing_keys by done.
  - apply NoDup_fst_map_to_list.
  - apply list_elem_of_fmap. exists (name, ns). split; [done |].
    by apply elem_of_map_to_list.
Qed.

(** Only the deletion of a namespace removes it. *)
Lemma fake_keeps_namespace (r : Request) (c : Cluster) (name : string) :
  r <> NamespacesDelete name ->
  is_Some (namespaces c !! name) -> is_Some (namespaces (fake r c).2 !! name).
Proof.
  intros Hr Hname.
  destruct r as [opts | ns | name' | name' | namespace pod | namespace opts
                 | namespace name' | namespace name']; cbn -[lookup insert delete decide].
  - done.
  - destruct (namespaces c !! metav1.Name _) eqn:E; cbn -[lookup insert delete]; [done |].
    apply lookup_insert_is_Some'. by right.
  - by destruct (namespaces c !! name').
  - destruct (namespaces c !! name') eqn:E; cbn -[lookup insert delete]; [| done].
    rewrite lookup_delete_ne; [done | congruence].
  - destruct (decide _); [| done]. by destruct (pods c !! _).
  - done.
  - by destruct (pods c !! _).
  - by destruct (pods c !! _).
Qed.

Lemma perform_keeps_namespace (rs : list Request) (c : Cluster) (name : string) :
  Forall (fun r => r <> NamespacesDelete name) rs ->
  is_Some (namespaces c !! name) -> is_Some (namespaces (perform rs c) !! name).
Proof.
  unfold perform. intros Hrs. revert c.
  induction Hrs as [| r rs Hr _ IH]; intros c Hc; [done |].
  cbn. by apply IH, fake_keeps_namespace.
Qed.

Lemma perform_app (rs1 rs2 : list Request) (c : Cluster) :
  perform (rs1 ++ rs2) c = perform rs2 (perform rs1 c).
Proof. apply foldl_app. Qed.

(** The cluster a program leaves is the one its calls produce. *)
Lemma exec_perform {A} (p : Prog A) (w : World Cluster) :
  cluster (exec fake p w).2 = perform (map request (issued fake p w)) (cluster w).
Proof.
  cut (forall evs, calls (exec fake p w).2 = (calls w ++ evs)%list ->
                   cluster (exec fake p w).2 = perform (map request evs) (cluster w)).
  { intros H. apply H, issued_spec. }
  revert w. induction p as [a | r k IH | l k IH | a k IH]; intros w evs; simpl.
  - intros Hevs. assert (evs = []) as ->; [| done].
    apply (f_equal length) in Hevs. rewrite length_app in Hevs.
    destruct evs; [done | cbn in Hevs; lia].
  - unfold doCall. destruct (fake r (cluster w)) as [x c] eqn:Hf.
    intros Hevs.
    destruct (exec_calls fake (k x)
                {| cluster := c;
                   calls := calls w ++ [ {| request := r; returned := failed x |} ];
                   logs := logs w; started := started w; handlers := handlers w |})
      as [rest Hrest].
    rewrite Hrest in Hevs. cbn [calls] in Hevs.
    rewrite <- app_assoc in Hevs. apply app_inv_head in Hevs. subst evs.
    rewrite (IH x _ rest Hrest). cbn. by rewrite Hf.
  - apply (IH (doLog l w)).
  - intros Hevs. destruct a.
    + by apply (IH (doInformer StartFactory w) evs).
    + by apply (IH (doInformer (AddEventHandler h) w) evs).
Qed.

(** After the namespace is created, [Run] only tries to create the pod. *)
Lemma fake_Run_cluster (c : Cluster) :
  namespaces c !! namespaceName = None ->
  cluster (exec fake Run (boot c)).2 =
    perform [PodsCreate namespaceName podSpec] (fake (NamespacesCreate nsSpec) c).2.
Proof.
  intros Hns. unfold Run, perform. run_fake.
  rewrite (fake_create_namespace c Hns). run_fake.
  by destruct (fake (PodsCreate namespaceName podSpec) _) as [[pod|err] c2].
Qed.

(** C4. In a cluster without the namespace aerospike, the listing [Run]
    performs (and logs) before creating it does not contain aerospike; the
    creation succeeds, and a listing performed after it, whatever requests
    other than the deletion of the namespace were answered in between, and
    in particular a listing of the cluster [Run] leaves, contains aerospike
    exactly once. *)
Theorem namespace_listed_once_after_creation (c : Cluster) (later : list Request) :
  wellKeyed c = true ->
  namespaces c !! namespaceName = None ->
  Forall (fun r => r <> NamespacesDelete namespaceName) later ->
  let run := exec fake Run (boot c) in
  let created := (fake (NamespacesCreate nsSpec) c).2 in
  (fake (NamespacesList noOptions) c).1 = Ok (listNamespaces noOptions c) /\
  head (logs run.2) = Some (Info [("namespaces", Strings (listing c))] "k8s namespaces") /\
  occurrences namespaceName (listing c) = 0 /\
  (fake (NamespacesCreate nsSpec) c).1 = Ok nsSpec /\
  occurrences namespaceName (listing (perform later created)) = 1 /\
  occurrences namespaceName (listing (cluster run.2)) = 1.
Proof.
  intros Hc Hns Hlater run created.
  assert (wellKeyed created = true) as Hcreated by (by apply fake_wellKeyed).
  assert (is_Some (namespaces created !! namespaceName)) as Hthere.
  { unfold created. rewrite (fake_create_namespace c Hns). cbn [snd namespaces].
    rewrite lookup_insert_eq. by eexists. }
  split; [done |]. split.
  { unfold run, Run. run_fake. rewrite (fake_create_namespace c Hns). run_fake.
    destruct (fake (PodsCreate namespaceName podSpec) _) as [[pod|err] c2]; by run_fake. }
  split; [by apply listing_absent |].
  split; [by rewrite (fake_create_namespace c Hns) |].
  split.
  - apply listing_present; [by apply perform_wellKeyed |].
    by apply perform_keeps_namespace.
  - unfold run. rewrite (fake_Run_cluster c Hns). fold created.
    apply listing_present; [by apply perform_wellKeyed |].
    apply perform_keeps_namespace; [| done].
    by repeat constructor.
Qed.

Lemma namespace_listed_once_after_creation_witness :
  listing emptyCluster = [] /\
  listing (cluster (exec fake Run (boot emptyCluster)).2) = ["aerospike"] /\
  occurrences namespaceName (listing (cluster (exec fake Run (boot emptyCluster)).2)) = 1.
Proof.
  split; [reflexivity |]. split; [vm_compute; reflexivity |].
  apply (namespace_listed_once_after_creation emptyCluster
           [PodsCreate namespaceName podSpec; NamespacesList noOptions]).
  - reflexivity.
  - reflexivity.
  - repeat constructor; discriminate.
Defined.

(** ** The label query *)

Lemma Matches_label (labels : gmap string string) :
  Matches label labels = true <-> labels !! "k8s-app" = Some "kube-dns".
Proof.
  unfold Matches.
  change (parseSelector label) with [Equals "k8s-app" "kube-dns"].
  cbn. by rewrite andb_true_r, bool_decide_eq_true.
Qed.

(** With an empty namespace the listing ranges over the pods of every
    namespace. *)
Lemma listPods_everywhere (opts : metav1.ListOptions) (c : Cluster) :
  listPods "" opts c =
    (filter (fun kv : string * string * v1.Pod =>
               Matches (metav1.LabelSelector opts) (podLabels kv.2) = true)
            (map_to_list (pods c))).*2.
Proof.
  unfold listPods. f_equal. apply list_filter_iff. intros kv.
  split; [by intros [_ ?] | intros ?; split; [by left | done]].
Qed.

Lemma reported_pods (c : Cluster) (name namespace : string) :
  wellKeyed c = true ->
  {| Name := name; Namespace := namespace |}
    ∈ map SimplePodFromPod (listPods "" {| metav1.LabelSelector := label |} c) <->
  exists pod : v1.Pod,
    pods c !! (namespace, name) = Some pod /\ podLabels pod !! "k8s-app" = Some "kube-dns".
Proof.
  intros [_ Hp]%wellKeyed_spec. rewrite listPods_everywhere. split.
  - intros (pod & Hsp & ([k pod'] & -> & Hin)%list_elem_of_fmap)%list_elem_of_fmap.
    apply list_elem_of_filter in Hin as [Hm Hk%elem_of_map_to_list].
    cbn in *. exists pod'. split; [| by apply Matches_label].
    specialize (Hp _ _ Hk). unfold identity in Hp. subst k.
    by inversion Hsp.
  - intros (pod & Hk & Hl). apply list_elem_of_fmap. exists pod. split.
    + specialize (Hp _ _ Hk). unfold SimplePodFromPod. by inversion Hp.
    + apply list_elem_of_fmap. exists ((namespace, name), pod). split; [done |].
      apply list_elem_of_filter. split; [by apply Matches_label |].
      by apply elem_of_map_to_list.
Qed.

Lemma reported_pods_NoDup (opts : metav1.ListOptions) (c : Cluster) :
  wellKeyed c = true ->
  NoDup (map SimplePodFromPod (listPods "" opts c)).
Proof.
  intros [_ Hp]%wellKeyed_spec. rewrite listPods_everywhere.
  change (NoDup (SimplePodFromPod <$>
                  (snd <$> filter
                     (fun kv : string * string * v1.Pod =>
                        Matches (metav1.LabelSelector opts) (podLabels kv.2) = true)
                     (map_to_list (pods c))))).
  rewrite <- list_fmap_compose.
  apply (NoDup_fmap_2_strong (SimplePodFromPod ∘ snd)).
  - intros [k1 p1] [k2 p2] [_ H1%elem_of_map_to_list]%list_elem_of_filter
                           [_ H2%elem_of_map_to_list]%list_elem_of_filter Heq.
    cbn in Heq. pose proof (Hp _ _ H1) as E1. pose proof (Hp _ _ H2) as E2.
    assert (k1 = k2) as ->.
    { rewrite <- E1, <- E2. unfold identity. by inversion Heq. }
    congruence.
  - apply NoDup_filter, NoDup_map_to_list.
Qed.

(** C8. The label query of [Run] is sent with an empty namespace.  When [Run]
    succeeds, the pods it logs are exactly the pods of the cluster, in
    whatever namespace, that carry the label k8s-app=kube-dns, each given
    once by its name and namespace; they are the labelled pods the cluster
    had before the run. *)
Theorem label_query_is_cluster_wide (c : Cluster) :
  wellKeyed c = true ->
  (exec fake Run (boot c)).1 = None ->
  let final := (exec fake Run (boot c)).2 in
  exists reported : list SimplePod,
    last (calls final) =
      Some {| request := PodsList "" {| metav1.LabelSelector := "k8s-app=kube-dns" |};
              returned := None |} /\
    last (logs final) =
      Some (Info [("pods", Pods reported)] "pods with label k8s-app=kube-dns") /\
    NoDup reported /\
    (forall name namespace : string,
        {| Name := name; Namespace := namespace |} ∈ reported <->
        exists pod : v1.Pod,
          pods (cluster final) !! (namespace, name) = Some pod /\
          podLabels pod !! "k8s-app" = Some "kube-dns") /\
    (forall name namespace : string,
        {| Name := name; Namespace := namespace |} ∈ reported <->
        exists pod : v1.Pod,
          pods c !! (namespace, name) = Some pod /\
          podLabels pod !! "k8s-app" = Some "kube-dns").
Proof.
  intros Hc Hrun final.
  destruct (fake_Run_returns_nil c Hrun) as [Hns Hpod].
  assert (wellKeyed (cluster final) = true) as Hfinal.
  { unfold final. rewrite (fake_Run_cluster c Hns).
    by apply perform_wellKeyed, fake_wellKeyed. }
  unfold final in *. clear final. rewrite (fake_Run_success c Hns Hpod) in *.
  cbn [snd cluster calls logs] in *.
  exists (map SimplePodFromPod
            (listPods "" {| metav1.LabelSelector := label |} (afterRun c))).
  split; [done |]. split; [done |].
  split; [by apply reported_pods_NoDup |].
  split; [intros name namespace; by apply reported_pods |].
  intros name namespace. rewrite (reported_pods _ _ _ Hfinal).
  unfold afterRun. cbn [pods]. split.
  - intros (pod & [[_ <-] | [_ Hk]]%lookup_insert_Some & Hl); [done | eauto].
  - intros (pod & Hk & Hl). exists pod. split; [| done].
    rewrite lookup_insert_ne; [done |]. congruence.
Qed.

Lemma label_query_is_cluster_wide_witness :
  wellKeyed withDns = true /\
  (exec fake Run (boot withDns)).1 = None /\
  exists reported : list SimplePod,
    last (logs (exec fake Run (boot withDns)).2) =
      Some (Info [("pods", Pods reported)] "pods with label k8s-app=kube-dns") /\
    {| Name := "coredns"; Namespace := "kube-system" |} ∈ reported.
Proof.
  assert (wellKeyed withDns = true) as Hc by (vm_compute; reflexivity).
  assert ((exec fake Run (boot withDns)).1 = None) as Hrun by (vm_compute; reflexivity).
  split; [exact Hc |]. split; [exact Hrun |].
  destruct (label_query_is_cluster_wide withDns Hc Hrun)
    as (reported & _ & Hlog & _ & _ & Hin).
  exists reported. split; [exact Hlog |].
  apply Hin. exists dns. split; vm_compute; reflexivity.
Defined.

(** ** The informer callbacks *)

Lemma assertPod_completes (x : any) (pod : v1.Pod) :
  assertPod x = Done pod <-> x = PodPtr (Some pod).
Proof.
  destruct x as [| [p|] | key obj]; cbn; split; intros H; by inversion H.
Qed.

(** C5. The callbacks do not complete on every payload.  [onPodDelete] (as
    [onPodAdd] and [onPodUpdate]) asserts its payload to be a pod pointer
    without checking: on the tombstone of an object whose final state is
    unknown, on a nil pointer and on a nil interface it panics, and nothing in
    the callback recovers; a callback completes exactly on a non-nil pod
    pointer. *)
Theorem callbacks_panic_on_non_pod_payload (key : string) (obj : any) (pod : v1.Pod) :
  let tombstone := DeletedFinalStateUnknown key obj in
  onPodDelete tombstone =
    Panic "interface conversion: interface {} is cache.DeletedFinalStateUnknown, not *v1.Pod" /\
  onPodDelete (PodPtr None) =
    Panic "runtime error: invalid memory address or nil pointer dereference" /\
  onPodAdd nilAny = Panic "interface conversion: interface {} is nil, not *v1.Pod" /\
  onPodUpdate (ptr pod) tombstone =
    Panic "interface conversion: interface {} is cache.DeletedFinalStateUnknown, not *v1.Pod" /\
  (forall x : any,
      (exists line, onPodDelete x = Done line) <-> exists p, x = PodPtr (Some p)) /\
  (forall x : any,
      (exists line, onPodAdd x = Done line) <-> exists p, x = PodPtr (Some p)).
Proof.
  repeat split.
  - intros [line Hline]. unfold onPodDelete in Hline.
    destruct (assertPod x) as [p | msg] eqn:E; [| done].
    exists p. by apply assertPod_completes.
  - intros [p ->]. by eexists.
  - intros [line Hline]. unfold onPodAdd in Hline.
    destruct (assertPod x) as [p | msg] eqn:E; [| done].
    exists p. by apply assertPod_completes.
  - intros [p ->]. by eexists.
Qed.

(** ** The watch subsystem *)

Lemma added_then_deleted (r : Reflector) (obj : v1.Pod) (rv1 rv2 : nat) :
  store r !! identity obj = None ->
  let r' := applyEvent (applyEvent r (Added obj rv1)) (Deleted obj rv2) in
  store r' = store r /\
  queue r' = (queue r ++ [ {| change := Added obj rv1; previous := None |};
                           {| change := Deleted obj rv2; previous := Some obj |} ])%list /\
  Drain (drop (length (queue r)) (queue r')) [podHandlers] =
    [ (OnAdd 0 (ptr obj), onPodAdd (ptr obj));
      (OnDelete 0 (ptr obj), onPodDelete (ptr obj)) ].
Proof.
  intros Hfresh r'.
  assert (queue r' = (queue r ++ [ {| change := Added obj rv1; previous := None |};
                                   {| change := Deleted obj rv2; previous := Some obj |} ])%list)
    as Hq.
  { unfold r', applyEvent, Upsert. cbn [store queue object].
    by rewrite Hfresh, lookup_insert_eq, <- app_assoc. }
  split; [| split; [done |]].
  - unfold r', applyEvent, Upsert, Remove. cbn [store].
    by apply delete_insert_id.
  - by rewrite Hq, drop_app_length.
Qed.

Lemma fake_main_success (c : Cluster) :
  namespaces c !! namespaceName = None ->
  pods c !! (namespaceName, "hello-world") = None ->
  let final := exec fake (main None None) (boot c) in
  final.1 = 0 /\
  handlers final.2 = [podHandlers] /\
  namespaces (cluster final.2) = namespaces c /\
  pods (cluster final.2) = pods c /\
  podEvents (cluster final.2) =
    (podEvents c ++ [ Added podSpec (S (S (version c)));
                      Deleted podSpec (S (S (S (version c)))) ])%list.
Proof.
  intros Hns Hpod final. unfold final. rewrite main_exec. cbn zeta.
  rewrite (fake_Run_from (doLog connecting (boot c)) Hns Hpod). cbn [fst snd].
  rewrite (fake_Cleanup_success _ podSpec nsSpec);
    [| by apply lookup_insert_eq | by apply lookup_insert_eq].
  cbn [fst snd cluster handlers namespaces pods podEvents afterRun version
       doLog boot app].
  rewrite !delete_insert_id by done.
  by rewrite <- app_assoc.
Qed.


Lemma settled_history_later (c : Cluster) (since : nat) :
  settled c = true -> version c <= since ->
  filter (fun ev => since < delivered ev) (podEvents c) = [].
Proof.
  unfold settled. rewrite forallb_forall. intros Hold Hsince.
  induction (podEvents c) as [| ev evs IH]; [done |].
  rewrite filter_cons_False.
  - apply IH. intros x Hx. apply Hold. by right.
  - assert (bool_decide (delivered ev <= version c) = true) as Hev
      by (apply Hold; by left).
    apply bool_decide_eq_true in Hev. lia.
Qed.

Lemma Drain_app (q1 q2 : list Delta) (registrations : list ResourceEventHandlerFuncs) :
  Drain (q1 ++ q2) registrations = (Drain q1 registrations ++ Drain q2 registrations)%list.
Proof. unfold Drain. by rewrite map_app, concat_app. Qed.

(** Draining less of the queue invokes an initial part of the callbacks. *)
Lemma Drain_prefix (q q' : list Delta) (registrations : list ResourceEventHandlerFuncs) :
  q `prefix_of` q' -> Drain q registrations `prefix_of` Drain q' registrations.
Proof. intros [rest ->]. rewrite Drain_app. by eexists. Qed.

Lemma main_calls_on_clean_cluster (c : Cluster) :
  namespaces c !! namespaceName = None ->
  pods c !! (namespaceName, "hello-world") = None ->
  map request (calls (exec fake (main None None) (boot c)).2) = (runSteps ++ cleanupSteps)%list.
Proof.
  intros Hns Hpod.
  destruct (fake_main_success c Hns Hpod) as (Hexit & _).
  apply main_exit in Hexit.
  pose proof (main_sequenced fake (boot c)) as Hseq. rewrite Hexit in Hseq.
  destruct Hseq as [Hreq _].
  by rewrite (issued_spec fake (main None None) (boot c)).
Qed.

(** The pod collection, the resource version and the watch history of the
    states a successful run of [main] goes through, when no other pod is
    around: the pod is there after the third call and until the fifth. *)
Lemma clean_trajectory (c cs : Cluster) (i : nat) :
  namespaces c !! namespaceName = None ->
  pods c = ∅ ->
  trajectory (runSteps ++ cleanupSteps) c !! i = Some cs ->
  (i <= 2 /\ pods cs = ∅ /\ version c <= version cs <= S (version c) /\
   podEvents cs = podEvents c) \/
  (3 <= i <= 4 /\ pods cs = {[ (namespaceName, "hello-world") := podSpec ]} /\
   version cs = S (S (version c)) /\
   podEvents cs = (podEvents c ++ [Added podSpec (S (S (version c)))])%list) \/
  (5 <= i <= 6 /\ pods cs = ∅ /\ S (S (S (version c))) <= version cs /\
   podEvents cs = (podEvents c ++ [Added podSpec (S (S (version c)));
                                   Deleted podSpec (S (S (S (version c))))])%list).
Proof.
  intros Hns Hempty.
  assert (pods c !! (namespaceName, "hello-world") = None) as Hpod
    by (by rewrite Hempty).
  unfold runSteps, cleanupSteps. cbn [app trajectory].
  rewrite !fake_list_namespaces. cbn [snd].
  rewrite !(fake_create_namespace c Hns). cbn [snd].
  rewrite !fake_create_pod by done. cbn [snd].
  rewrite !fake_list_pods. cbn [snd].
  rewrite !(fake_delete_pod _ podSpec) by apply lookup_insert_eq. cbn [snd].
  rewrite !(fake_delete_namespace _ nsSpec) by apply lookup_insert_eq. cbn [snd].
  cbn [namespaces pods version podEvents]. rewrite Hempty.
  destruct i as [|[|[|[|[|[|[|i]]]]]]]; cbn [lookup list_lookup]; intros [= <-];
    cbn [pods version podEvents].
  - left. repeat split; (done || lia).
  - left. repeat split; (done || lia).
  - left. repeat split; (done || lia).
  - right; left. rewrite insert_empty. repeat split; (done || lia).
  - right; left. rewrite insert_empty. repeat split; (done || lia).
  - right; right. rewrite delete_insert_id by done. rewrite <- app_assoc.
    repeat split; (done || lia).
  - right; right. rewrite delete_insert_id by done. rewrite <- app_assoc.
    repeat split; (done || lia).
Qed.

Lemma trajectory_length (rs : list Request) (c : Cluster) :
  length (trajectory rs c) = S (length rs).
Proof. revert c. induction rs as [| r rs IH]; intros c; cbn; [done | by rewrite IH]. Qed.

Lemma snapshot_of_no_pod (cs : Cluster) :
  pods cs = ∅ -> bootstrap (snapshotOf cs) idle = idle.
Proof.
  intros Hempty. unfold bootstrap, snapshotOf, listPods. cbn [items].
  by rewrite Hempty, map_to_list_empty.
Qed.

Lemma snapshot_of_the_pod (cs : Cluster) :
  pods cs = {[ (namespaceName, "hello-world") := podSpec ]} ->
  bootstrap (snapshotOf cs) idle =
    {| store := {[ (namespaceName, "hello-world") := podSpec ]};
       queue := [ {| change := Added podSpec (version cs); previous := None |} ] |}.
Proof.
  intros Hpods. unfold bootstrap, snapshotOf, listPods. cbn [items resourceVersion].
  rewrite Hpods, map_to_list_singleton.
  rewrite filter_cons_True by (split; [by left | reflexivity]).
  rewrite filter_nil. cbn [map foldr store queue idle app].
  unfold Upsert. by rewrite lookup_empty, insert_empty.
Qed.

Ltac stream_of Hsettled :=
  unfold watchFrom;
  rewrite ?filter_app;
  rewrite (settled_history_later _ _ Hsettled) by lia;
  repeat first [ rewrite filter_cons_True by (simpl; lia)
               | rewrite filter_cons_False by (simpl; lia) ];
  rewrite ?filter_nil; cbn [app].

(** What the subsystem holds and has to deliver when its snapshot is taken
    after [i] calls of a successful [main] and its stream is read after [j]
    calls: the store is the pod collection of that moment, and the callbacks
    due are none, the creation alone, or the creation and the deletion. *)
Lemma observed_between (c cs cd : Cluster) (i j : nat) :
  namespaces c !! namespaceName = None ->
  pods c = ∅ ->
  settled c = true ->
  trajectory (runSteps ++ cleanupSteps) c !! i = Some cs ->
  trajectory (runSteps ++ cleanupSteps) c !! j = Some cd ->
  i <= j ->
  store (observe cs cd) = pods cd /\
  ((Drain (queue (observe cs cd)) [podHandlers] = [] /\ (j <= 2 \/ 5 <= i)) \/
   (Drain (queue (observe cs cd)) [podHandlers] = [addOfHello] /\
    i <= 4 /\ 3 <= j <= 4) \/
   (Drain (queue (observe cs cd)) [podHandlers] = [addOfHello; deleteOfHello] /\
    i <= 4 /\ 5 <= j)).
Proof.
  intros Hns Hempty Hsettled Hi Hj Hij.
  destruct (clean_trajectory c cs i Hns Hempty Hi)
    as [(Hi' & Hps & Hvs & Hes) | [(Hi' & Hps & Hvs & Hes) | (Hi' & Hps & Hvs & Hes)]];
  destruct (clean_trajectory c cd j Hns Hempty Hj)
    as [(Hj' & Hpd & Hvd & Hed) | [(Hj' & Hpd & Hvd & Hed) | (Hj' & Hpd & Hvd & Hed)]];
  try lia; unfold observe, reflect; rewrite Hpd.
  - (* no pod yet at either moment *)
    rewrite (snapshot_of_no_pod cs Hps).
    assert (watchFrom (version cs) cd = []) as ->.
    { unfold watchFrom. rewrite Hed. stream_of Hsettled. done. }
    split; [done |]. left. split; [done | lia].
  - (* snapshot before the creation, stream read while the pod is there *)
    rewrite (snapshot_of_no_pod cs Hps).
    assert (watchFrom (version cs) cd = [Added podSpec (S (S (version c)))]) as ->.
    { unfold watchFrom. rewrite Hed. stream_of Hsettled. done. }
    cbn [foldl]. unfold applyEvent, Upsert. cbn [store queue idle object app].
    rewrite lookup_empty. split; [by rewrite insert_empty |].
    right; left. split; [done | lia].
  - (* snapshot before the creation, stream read after the deletion *)
    rewrite (snapshot_of_no_pod cs Hps).
    assert (watchFrom (version cs) cd =
              [Added podSpec (S (S (version c))); Deleted podSpec (S (S (S (version c))))])
      as ->.
    { unfold watchFrom. rewrite Hed. stream_of Hsettled. done. }
    cbn [foldl].
    destruct (added_then_deleted idle podSpec (S (S (version c))) (S (S (S (version c)))))
      as (Hstore & Hqueue & Hdrain); [done |].
    cbn zeta in Hstore, Hqueue, Hdrain. rewrite Hstore, Hqueue.
    split; [done |]. right; right. split; [done | lia].
  - (* snapshot and stream while the pod is there *)
    rewrite (snapshot_of_the_pod cs Hps).
    assert (watchFrom (version cs) cd = []) as ->.
    { unfold watchFrom. rewrite Hed, Hvs. stream_of Hsettled. done. }
    split; [done |]. right; left. split; [done | lia].
  - (* snapshot while the pod is there, stream read after the deletion *)
    rewrite (snapshot_of_the_pod cs Hps).
    assert (watchFrom (version cs) cd = [Deleted podSpec (S (S (S (version c))))]) as ->.
    { unfold watchFrom. rewrite Hed, Hvs. stream_of Hsettled. done. }
    cbn [foldl]. unfold applyEvent, Remove. cbn [store queue object app].
    change (identity podSpec) with (namespaceName, "hello-world").
    rewrite lookup_singleton_eq, delete_singleton_eq.
    split; [done |]. right; right. split; [done | lia].
  - (* snapshot after the deletion *)
    rewrite (snapshot_of_no_pod cs Hps).
    assert (watchFrom (version cs) cd = []) as ->.
    { unfold watchFrom. rewrite Hed. stream_of Hsettled. done. }
    split; [done |]. left. split; [done | lia].
Qed.

Lemma fake_main_started (c : Cluster) :
  namespaces c !! namespaceName = None ->
  pods c !! (namespaceName, "hello-world") = None ->
  started (exec fake (main None None) (boot c)).2 = 1.
Proof.
  intros Hns Hpod. rewrite main_exec. cbn zeta.
  rewrite (fake_Run_from (doLog connecting (boot c)) Hns Hpod). cbn [fst snd].
  rewrite (fake_Cleanup_success _ podSpec nsSpec);
    [done | by apply lookup_insert_eq | by apply lookup_insert_eq].
Qed.

Lemma trajectory_last (rs : list Request) (c : Cluster) :
  last (trajectory rs c) = Some (perform rs c).
Proof.
  revert c. induction rs as [| r rs IH]; intros c; [done |].
  cbn [trajectory]. rewrite last_cons, IH. done.
Qed.

(** C6. The informer goroutine is started by [Run] and nothing waits for it,
    so what the callbacks see of the pod depends on when the subsystem takes
    its snapshot and how far it has read the watch stream when the process
    ends.  On the modelled subsystem, for a run of [main] that succeeds on a
    cluster without other pods, with the snapshot taken after [i] of the six
    calls and the stream read after [j] of them (the pod is created by the
    third call and deleted by the fifth): the callbacks [Run] registered are
    invoked once [onAdd] with the pod hello-world of aerospike, image
    hello-world, and then once [onDelete], exactly when the snapshot is taken
    before the deletion and the stream is read after it; then the Local Store
    is empty.  In every other schedule, and however little of the queue is
    drained, the invocations are an initial part of that pair: never twice,
    never a deletion without the creation; they are none when the stream is
    read before the creation or the snapshot taken after the deletion.  The
    store always is the pod collection of the moment the stream was read. *)
Theorem hello_world_pod_observed_per_schedule (c cs cd : Cluster) (i j : nat) :
  pods c = ∅ ->
  namespaces c !! namespaceName = None ->
  settled c = true ->
  let final := exec fake (main None None) (boot c) in
  let moments := trajectory (map request (calls final.2)) c in
  moments !! i = Some cs ->
  moments !! j = Some cd ->
  i <= j ->
  let informer := observe cs cd in
  let invoked := Drain (queue informer) (handlers final.2) in
  final.1 = 0 /\
  started final.2 = 1 /\
  handlers final.2 = [podHandlers] /\
  length moments = 7 /\
  last moments = Some (cluster final.2) /\
  (invoked = [addOfHello; deleteOfHello] <-> i <= 4 /\ 5 <= j) /\
  (invoked = [] <-> j <= 2 \/ 5 <= i) /\
  (forall q : list Delta,
      q `prefix_of` queue informer ->
      Drain q (handlers final.2) `prefix_of` [addOfHello; deleteOfHello]) /\
  identity podSpec = ("aerospike", "hello-world") /\
  map v1.Image (v1.Containers (v1.Spec podSpec)) = ["hello-world"] /\
  store informer = pods cd /\
  (5 <= j -> store informer = ∅).
Proof.
  intros Hempty Hns Hsettled final moments Hi Hj Hij informer invoked.
  assert (pods c !! (namespaceName, "hello-world") = None) as Hpod
    by (by rewrite Hempty).
  destruct (fake_main_success c Hns Hpod) as (Hexit & Hh & _).
  fold final in Hexit, Hh.
  pose proof (main_calls_on_clean_cluster c Hns Hpod) as Hcalls. fold final in Hcalls.
  assert (last moments = Some (cluster final.2)) as Hlast.
  { unfold moments, final.
    rewrite trajectory_last, (exec_perform (main None None) (boot c)).
    by rewrite (issued_spec fake (main None None) (boot c)). }
  assert (length moments = 7) as Hlen.
  { unfold moments. by rewrite trajectory_length, Hcalls. }
  unfold moments in Hi, Hj. rewrite Hcalls in Hi, Hj.
  destruct (observed_between c cs cd i j Hns Hempty Hsettled Hi Hj Hij)
    as (Hstore & Hcases).
  fold informer in Hstore, Hcases.
  assert (5 <= j -> pods cd = ∅) as Hgone.
  { intros Hlate.
    destruct (clean_trajectory c cd j Hns Hempty Hj)
      as [(? & _) | [(? & _) | (_ & Hpd & _)]]; (lia || done). }
  unfold invoked. rewrite Hh.
  split; [done |]. split; [by apply fake_main_started |].
  split; [done |]. split; [done |]. split; [done |].
  destruct Hcases as [[Hd Hw] | [[Hd Hw] | [Hd Hw]]]; rewrite Hd.
  - split; [split; [done | lia] |]. split; [done |].
    split; [| repeat split; try done; by rewrite Hstore; auto].
    intros q Hq. apply (Drain_prefix _ _ [podHandlers]) in Hq. rewrite Hd in Hq.
    etrans; [exact Hq |]. by eexists.
  - split; [split; [done | lia] |]. split; [split; [done | lia] |].
    split; [| repeat split; try done; by rewrite Hstore; auto].
    intros q Hq. apply (Drain_prefix _ _ [podHandlers]) in Hq. rewrite Hd in Hq.
    etrans; [exact Hq |]. by exists [deleteOfHello].
  - split; [done |]. split; [split; [done | lia] |].
    split; [| repeat split; try done; by rewrite Hstore; auto].
    intros q Hq. apply (Drain_prefix _ _ [podHandlers]) in Hq. by rewrite Hd in Hq.
Qed.

Lemma hello_world_pod_observed_per_schedule_witness :
  pods emptyCluster = ∅ /\
  Drain (queue (observe emptyCluster
                  (cluster (exec fake (main None None) (boot emptyCluster)).2)))
        (handlers (exec fake (main None None) (boot emptyCluster)).2)
    = [addOfHello; deleteOfHello].
Proof.
  split; [reflexivity |].
  destruct (hello_world_pod_observed_per_schedule emptyCluster emptyCluster
              (cluster (exec fake (main None None) (boot emptyCluster)).2) 0 6)
    as (_ & _ & _ & _ & _ & Hboth & _);
    [reflexivity | reflexivity | reflexivity | reflexivity
     | vm_compute; reflexivity | lia |].
  apply Hboth. lia.
Defined.

(** The schedule in which the snapshot is taken once [main] has made its
    last call: the pod was created and deleted, and no callback is invoked. *)
Lemma late_informer_observes_nothing :
  let final := exec fake (main None None) (boot emptyCluster) in
  let late := cluster final.2 in
  final.1 = 0 /\
  handlers final.2 = [podHandlers] /\
  trajectory (map request (calls final.2)) emptyCluster !! 6 = Some late /\
  Drain (queue (observe late late)) (handlers final.2) = [] /\
  Drain (queue (observe late late)) (handlers final.2) <> [addOfHello; deleteOfHello].
Proof.
  vm_compute. split; [done |]. split; [done |]. split; [done |]. split; [done |].
  intros Hno. discriminate Hno.
Qed.

(** * Further properties of the driver *)

(** ** The log and the informer, for every clientset *)

Ltac all_steps h := repeat (client_step h).

Ltac only_new :=
  rewrite <- ?app_assoc; rewrite ?drop_app_length, ?drop_all; cbn -[String.append].

Section Logging.
Context {C : Type} (h : Interface C).

(** X1. Whatever the clientset answers, [Run] and [Cleanup] write one log
    line per call that succeeded and none for a call that failed (the failure
    is returned, not logged), and every line they write is at info level. *)
Theorem one_line_per_successful_step (s : OneShot) (w : World C) :
  Forall (fun l => level l = InfoLevel) (logged h (program s) w) /\
  length (logged h (program s) w) = successes (issued h (program s) w).
Proof.
  unfold logged, issued. destruct w as [c cs ls n hs].
  destruct s; unfold program, Run, Cleanup; all_steps h; only_new;
    (split; [repeat constructor | done]).
Qed.

(** X2. On every path, failing ones included, [Run] has started the informer
    factory once and registered one handler set, the three callbacks of the
    source; [Cleanup] starts and registers nothing, and neither does anything
    stop or unregister them. *)
Theorem informer_set_up_once (w : World C) :
  started (exec h Run w).2 = S (started w) /\
  handlers (exec h Run w).2 = (handlers w ++ [podHandlers])%list /\
  started (exec h Cleanup w).2 = started w /\
  handlers (exec h Cleanup w).2 = handlers w /\
  started (exec h (main None None) w).2 = S (started w) /\
  handlers (exec h (main None None) w).2 = (handlers w ++ [podHandlers])%list.
Proof.
  destruct w as [c cs ls n hs].
  repeat split; unfold main, Run, Cleanup; all_steps h; done.
Qed.

(** X3. If building the configuration or the clientset fails, [main] exits
    with status 1 after the connecting line and one fatal line carrying that
    error; it has made no call, has not started the informer and has left the
    cluster alone.  A configuration error takes precedence. *)
Theorem setup_failure_makes_no_call (w : World C) (configErr clientsetErr : option error)
    (err : error) :
  (match configErr with Some e => Some e | None => clientsetErr end) = Some err ->
  let final := exec h (main configErr clientsetErr) w in
  final.1 = 1 /\
  issued h (main configErr clientsetErr) w = [] /\
  cluster final.2 = cluster w /\
  started final.2 = started w /\
  handlers final.2 = handlers w /\
  exists msg : string,
    logged h (main configErr clientsetErr) w = [connecting; Fatal err msg] /\
    msg = match configErr with
          | Some _ => "failed to build config"
          | None => "failed to create clientset from config"
          end.
Proof.
  intros Herr final. unfold final, issued, logged. destruct w as [c cs ls n hs].
  destruct configErr as [e|]; [| destruct clientsetErr as [e|]; [| done]];
    injection Herr as ->; cbn -[String.append drop]; only_new;
    repeat split; eauto.
Qed.

(** X4. The exit status of [main] is the number of fatal lines it wrote, 0
    or 1.  The first line is always the connecting line; on status 0 both
    set-up steps had succeeded and the last line reports the deletion of the
    namespace; on status 1 the last line is the fatal one. *)
Theorem exit_status_counts_fatal_lines (w : World C) (configErr clientsetErr : option error) :
  let final := exec h (main configErr clientsetErr) w in
  let new := logged h (main configErr clientsetErr) w in
  length (filter (fun l => isFatal l = true) new) = final.1 /\
  head new = Some connecting /\
  match final.1 with
  | 0 => configErr = None /\ clientsetErr = None /\
         last new = Some (Info [] "deleted aerospike namespace")
  | _ => final.1 = 1 /\ exists err msg, last new = Some (Fatal err msg)
  end.
Proof.
  cbn zeta. unfold logged. destruct w as [c cs ls n hs].
  destruct configErr as [e|]; [| destruct clientsetErr as [e|]];
    unfold main, Run, Cleanup; all_steps h;
    cbn -[String.append drop]; only_new; repeat split; eauto.
Qed.

(** X5. When the four calls of [Run] succeed, [Run] returns nil, leaves the
    cluster the last call left, and reports what the clientset returned item
    for item and in its order: the names of the listed namespaces and the
    name and namespace of every listed pod, without filtering or removing
    duplicates.  The objects returned by the two creations are not used. *)
Theorem run_reports_what_was_returned (w : World C)
    (items : list v1.Namespace) (created : v1.Namespace) (createdPod : v1.Pod)
    (podItems : list v1.Pod) (c1 c2 c3 c4 : C) :
  h (NamespacesList noOptions) (cluster w) = (Ok items, c1) ->
  h (NamespacesCreate nsSpec) c1 = (Ok created, c2) ->
  h (PodsCreate namespaceName podSpec) c2 = (Ok createdPod, c3) ->
  h (PodsList "" {| metav1.LabelSelector := label |}) c3 = (Ok podItems, c4) ->
  (exec h Run w).1 = None /\
  cluster (exec h Run w).2 = c4 /\
  logged h Run w =
    [ Info [("namespaces",
             Strings (map (fun ns => metav1.Name (v1.Namespace_ObjectMeta ns)) items))]
           "k8s namespaces";
      Info [] "created new namespace aerospike";
      Info [] "created hello-world pod";
      Info [("pods", Pods (map SimplePodFromPod podItems))]
           "pods with label k8s-app=kube-dns" ].
Proof.
  intros H1 H2 H3 H4. unfold logged, Run. destruct w as [c cs ls n hs].
  cbn [cluster] in H1.
  repeat (cbn -[String.append drop]; unfold doCall, doLog;
          cbn -[String.append drop]; rewrite ?H1, ?H2, ?H3, ?H4).
  only_new. done.
Qed.

End Logging.

Lemma setup_failure_makes_no_call_witness :
  (exec fake (main None (Some (StatusError Unavailable "no route to host")))
        (boot emptyCluster)).1 = 1.
Proof.
  apply (setup_failure_makes_no_call fake (boot emptyCluster) None
           (Some (StatusError Unavailable "no route to host"))
           (StatusError Unavailable "no route to host")).
  reflexivity.
Defined.

Lemma run_reports_what_was_returned_witness :
  logged fake Run (boot withDns) =
    [ Info [("namespaces", Strings ["kube-system"])] "k8s namespaces";
      Info [] "created new namespace aerospike";
      Info [] "created hello-world pod";
      Info [("pods", Pods [ {| Name := "coredns"; Namespace := "kube-system" |} ])]
           "pods with label k8s-app=kube-dns" ].
Proof.
  eapply (run_reports_what_was_returned fake (boot withDns)
            [ {| v1.Namespace_ObjectMeta := metav1.named "kube-system" |} ]
            nsSpec podSpec [dns]);
    vm_compute; reflexivity.
Defined.

(** ** The callbacks on pod payloads *)

(** X6. The line a callback logs for a pod gives its name and namespace and
    nothing else: two pods get the same creation line (and the same deletion
    line) exactly when they agree on name and namespace, whatever their
    labels, containers or images; and a creation line is never a deletion
    line. *)
Theorem callback_lines_identify_the_pod (p q : v1.Pod) :
  let same :=
    metav1.Name (v1.Pod_ObjectMeta p) = metav1.Name (v1.Pod_ObjectMeta q) /\
    metav1.Namespace (v1.Pod_ObjectMeta p) = metav1.Namespace (v1.Pod_ObjectMeta q) in
  (onPodAdd (PodPtr (Some p)) = onPodAdd (PodPtr (Some q)) <-> same) /\
  (onPodDelete (PodPtr (Some p)) = onPodDelete (PodPtr (Some q)) <-> same) /\
  onPodAdd (PodPtr (Some p)) <> onPodDelete (PodPtr (Some q)).
Proof.
  cbn zeta. unfold onPodAdd, onPodDelete, SimplePodFromPod. cbn [assertPod].
  split; [| split].
  - split; [intros Heq; by inversion Heq | intros [-> ->]; done].
  - split; [intros Heq; by inversion Heq | intros [-> ->]; done].
  - intros Heq. inversion Heq.
Qed.

(** X7. [onPodUpdate] completes exactly when both payloads are non-nil pod
    pointers, and then names the old pod before the new one.  The old
    payload is asserted first: when it is not a pod pointer the callback
    panics on it, whatever the new payload is. *)
Theorem update_needs_two_pods (oldPod newPod : any) :
  ((exists line, onPodUpdate oldPod newPod = Done line) <->
   exists o n, oldPod = PodPtr (Some o) /\ newPod = PodPtr (Some n)) /\
  (forall o n, oldPod = PodPtr (Some o) -> newPod = PodPtr (Some n) ->
     onPodUpdate oldPod newPod =
       Done (Info [("old", OnePod (SimplePodFromPod o)); ("new", OnePod (SimplePodFromPod n))]
                  "informer received pod updated event")) /\
  (forall msg, assertPod oldPod = Panic msg -> onPodUpdate oldPod newPod = Panic msg) /\
  (forall o msg, oldPod = PodPtr (Some o) -> assertPod newPod = Panic msg ->
     onPodUpdate oldPod newPod = Panic msg).
Proof.
  unfold onPodUpdate. repeat split.
  - intros [line Hline].
    destruct (assertPod oldPod) as [o|] eqn:Eo; [| done].
    destruct (assertPod newPod) as [n|] eqn:En; [| done].
    exists o, n. by split; apply assertPod_completes.
  - intros (o & n & -> & ->). by eexists.
  - by intros o n -> ->.
  - by intros msg ->.
  - intros o msg -> Hn. cbn. by rewrite Hn.
Qed.

(** ** The test suite *)

Section Specs.
Context {C : Type} (h : Interface C).

(** X8. Against any clientset the pod spec makes one call, a [Get] of the
    pod hello-world of aerospike.  It passes exactly when the returned pod is
    named hello-world and its first container has image hello-world: further
    containers, the namespace and the labels of the pod are not looked at.
    It panics, rather than fails, exactly when a pod of that name comes back
    without any container. *)
Theorem pod_spec_checks_first_container (w : World C) :
  let got := (h (PodsGet "aerospike" "hello-world") (cluster w)).1 in
  map request (issued h It_pod w) = [PodsGet "aerospike" "hello-world"] /\
  ((exec h It_pod w).1 = Passed <->
   exists pod first rest,
     got = Ok pod /\ metav1.Name (v1.Pod_ObjectMeta pod) = "hello-world" /\
     v1.Containers (v1.Spec pod) = first :: rest /\ v1.Image first = "hello-world") /\
  ((exists msg, (exec h It_pod w).1 = Panicked msg) <->
   exists pod,
     got = Ok pod /\ metav1.Name (v1.Pod_ObjectMeta pod) = "hello-world" /\
     v1.Containers (v1.Spec pod) = []).
Proof.
  cbn zeta. unfold issued, It_pod. destruct w as [c cs ls n hs].
  cbn -[String.append drop decide]. unfold doCall. cbn -[String.append drop decide].
  destruct (h (PodsGet "aerospike" "hello-world") c) as [[pod|err] c1];
    cbn -[String.append drop decide].
  2:{ only_new. split; [done |]. split; split; try done.
      - by intros (? & ? & ? & ? & _).
      - by intros [? ?].
      - by intros (? & ? & _). }
  destruct (decide (metav1.Name (v1.Pod_ObjectMeta pod) = "hello-world")) as [Hn|Hn].
  2:{ cbn -[String.append drop]. only_new. split; [done |]. split; split; try done.
      - intros (? & ? & ? & [= <-] & ? & _). done.
      - by intros [? ?].
      - intros (? & [= <-] & ? & _). done. }
  destruct (v1.Containers (v1.Spec pod)) as [| first rest] eqn:Hc.
  { cbn -[String.append drop]. only_new. split; [done |]. split; split; try done.
    - intros (pod' & ? & ? & [= <-] & _ & Hc' & _). congruence.
    - intros _. by exists pod.
    - intros _. by eexists. }
  destruct (decide (v1.Image first = "hello-world")) as [Hi|Hi];
    cbn -[String.append drop]; only_new; (split; [done |]); split; split; try done.
  - intros _. by exists pod, first, rest.
  - by intros [? ?].
  - intros (pod' & [= <-] & _ & Hc'). congruence.
  - intros (pod' & f & r & [= <-] & _ & Hc' & Hi'). congruence.
  - by intros [? ?].
  - intros (pod' & [= <-] & _ & Hc'). congruence.
Qed.

(** X9. Against any clientset the namespace spec makes one call, a [Get] of
    the namespace aerospike, and passes exactly when a namespace named
    aerospike comes back. *)
Theorem namespace_spec_checks_name (w : World C) :
  let got := (h (NamespacesGet "aerospike") (cluster w)).1 in
  map request (issued h It_namespace w) = [NamespacesGet "aerospike"] /\
  ((exec h It_namespace w).1 = Passed <->
   exists ns, got = Ok ns /\ metav1.Name (v1.Namespace_ObjectMeta ns) = "aerospike").
Proof.
  cbn zeta. unfold issued, It_namespace. destruct w as [c cs ls n hs].
  cbn -[String.append drop decide]. unfold doCall. cbn -[String.append drop decide].
  destruct (h (NamespacesGet "aerospike") c) as [[ns|err] c1];
    cbn -[String.append drop decide].
  2:{ only_new. split; [done |]. split; [done |]. by intros (? & ? & _). }
  destruct (decide _) as [Hn|Hn]; cbn -[String.append drop]; only_new;
    (split; [done |]); split; try done.
  - intros _. by exists ns.
  - intros (ns' & [= <-] & ?). done.
Qed.

End Specs.

Lemma pod_spec_checks_first_container_witness :
  (exec fake It_pod (boot withSidecar)).1 = Passed /\
  exists msg, (exec fake It_pod (boot withBare)).1 = Panicked msg.
Proof.
  split.
  - apply (pod_spec_checks_first_container fake (boot withSidecar)).
    exists sidecar, {| v1.Name := "hello-world"; v1.Image := "hello-world" |},
      [ {| v1.Name := "proxy"; v1.Image := "envoy" |} ].
    repeat split; vm_compute; reflexivity.
  - apply (pod_spec_checks_first_container fake (boot withBare)).
    exists bare. repeat split; vm_compute; reflexivity.
Defined.

(** ** The suite against the fake clientset *)

Lemma fake_get_namespace (c : Cluster) (ns : v1.Namespace) :
  namespaces c !! namespaceName = Some ns ->
  fake (NamespacesGet "aerospike") c = (Ok ns, c).
Proof. intros H. unfold fake. change "aerospike" with namespaceName. by rewrite H. Qed.

Lemma fake_get_pod (c : Cluster) (pod : v1.Pod) :
  pods c !! (namespaceName, "hello-world") = Some pod ->
  fake (PodsGet "aerospike" "hello-world") c = (Ok pod, c).
Proof. intros H. unfold fake. change "aerospike" with namespaceName. by rewrite H. Qed.

(** X10. From any cluster that has neither the namespace nor the pod (the
    fresh fake clientset of the suite is one), [BeforeEach] passes, both
    specs pass on the cluster it leaves and do not change it, and [AfterEach]
    then passes and gives back the namespaces and pods the cluster started
    with. *)
Theorem suite_passes_on_a_clean_cluster (c : Cluster) :
  namespaces c !! namespaceName = None ->
  pods c !! (namespaceName, "hello-world") = None ->
  let before := exec fake BeforeEach (boot c) in
  let checkedNs := exec fake It_namespace before.2 in
  let checkedPod := exec fake It_pod before.2 in
  let after := exec fake AfterEach checkedPod.2 in
  before.1 = Passed /\
  checkedNs.1 = Passed /\ cluster checkedNs.2 = cluster before.2 /\
  checkedPod.1 = Passed /\ cluster checkedPod.2 = cluster before.2 /\
  after.1 = Passed /\
  namespaces (cluster after.2) = namespaces c /\
  pods (cluster after.2) = pods c.
Proof.
  intros Hns Hpod. cbn zeta. unfold BeforeEach, AfterEach.
  rewrite !exec_bind. rewrite (fake_Run_success c Hns Hpod). cbn [fst snd exec].
  assert (namespaces (afterRun c) !! namespaceName = Some nsSpec) as Hns'
    by apply lookup_insert_eq.
  assert (pods (afterRun c) !! (namespaceName, "hello-world") = Some podSpec) as Hpod'
    by apply lookup_insert_eq.
  unfold It_namespace, It_pod.
  cbn -[String.append fake decide afterRun Cleanup]. unfold doCall.
  cbn -[String.append fake decide afterRun Cleanup].
  rewrite (fake_get_namespace _ _ Hns'), (fake_get_pod _ _ Hpod').
  repeat (rewrite decide_True by done;
          cbn -[String.append fake afterRun Cleanup decide]).
  rewrite (fake_Cleanup_success _ podSpec nsSpec) by done.
  unfold afterRun.
  cbn -[String.append lookup insert delete listPods listing].
  rewrite !delete_insert_id by done.
  done.
Qed.

Lemma suite_passes_on_a_clean_cluster_witness :
  (exec fake BeforeEach (boot emptyCluster)).1 = Passed /\
  (exec fake It_pod (exec fake BeforeEach (boot emptyCluster)).2).1 = Passed.
Proof.
  destruct (suite_passes_on_a_clean_cluster emptyCluster)
    as (Hb & _ & _ & Hp & _); [reflexivity | reflexivity |].
  split; [exact Hb | exact Hp].
Defined.

(** ** Reruns and leftovers, against the fake clientset *)

Lemma fake_Run_result_anywhere (w : World Cluster) :
  (exec fake Run w).1 = (exec fake Run (boot (cluster w))).1.
Proof. by apply exec_same_cluster. Qed.

(** X11. [main] succeeds exactly on the clusters that have neither the
    namespace aerospike nor the pod hello-world in it. *)
Theorem main_succeeds_iff_clean (c : Cluster) :
  (exec fake (main None None) (boot c)).1 = 0 <->
  namespaces c !! namespaceName = None /\
  pods c !! (namespaceName, "hello-world") = None.
Proof.
  split.
  - intros Hexit. apply main_exit in Hexit. unfold mainError in Hexit.
    destruct (exec fake Run (doLog connecting (boot c))).1 as [err|] eqn:Hrun; [done |].
    rewrite fake_Run_result_anywhere in Hrun.
    by apply fake_Run_returns_nil.
  - intros [Hns Hpod]. by destruct (fake_main_success c Hns Hpod) as [-> _].
Qed.

(** X12. The process can be run again and again: started on a cluster with
    neither object, each of [n] successive runs exits with status 0, and the
    cluster ends with the namespaces and pods it began with. *)
Theorem main_can_be_rerun (n : nat) (c : Cluster) :
  namespaces c !! namespaceName = None ->
  pods c !! (namespaceName, "hello-world") = None ->
  (rerun fake n c).1 = replicate n 0 /\
  namespaces (rerun fake n c).2 = namespaces c /\
  pods (rerun fake n c).2 = pods c.
Proof.
  revert c. induction n as [| n IH]; intros c Hns Hpod; [done |].
  cbn [rerun].
  destruct (fake_main_success c Hns Hpod) as (Hexit & _ & Hn & Hp & _).
  destruct (IH (cluster (exec fake (main None None) (boot c)).2))
    as (Hcodes & Hn' & Hp'); [by rewrite Hn | by rewrite Hp |].
  destruct (rerun fake n _) as [codes c'].
  cbn [fst snd replicate] in *. rewrite Hexit, Hcodes, Hn', Hp', Hn, Hp. done.
Qed.

Lemma main_can_be_rerun_witness :
  (rerun fake 3 emptyCluster).1 = [0; 0; 0].
Proof.
  apply (main_can_be_rerun 3 emptyCluster); reflexivity.
Defined.

(** X13. [Run] is not idempotent.  On a cluster that already has the
    namespace aerospike, as after a run that was not cleaned up, it lists,
    fails to create the namespace with [AlreadyExists], returns that error
    wrapped and changes nothing: the pod is not attempted. *)
Theorem run_refuses_existing_namespace (w : World Cluster) (existing : v1.Namespace) :
  namespaces (cluster w) !! namespaceName = Some existing ->
  let final := exec fake Run w in
  final.1 = Some (Errorf "failed to create aerospike namespace: "
                         (StatusError AlreadyExists "namespaces aerospike already exists")) /\
  map request (issued fake Run w) = [NamespacesList noOptions; NamespacesCreate nsSpec] /\
  cluster final.2 = cluster w.
Proof.
  intros Hns final. unfold final, issued, Run. run_fake.
  rewrite !(fake_create_namespace_exists _ existing Hns). run_fake.
  by rewrite <- ?app_assoc, drop_app_length.
Qed.

Lemma run_refuses_existing_namespace_witness :
  (exec fake Run (boot emptyCluster)).1 = None /\
  (exec fake Run (exec fake Run (boot emptyCluster)).2).1 =
    Some (Errorf "failed to create aerospike namespace: "
                 (StatusError AlreadyExists "namespaces aerospike already exists")).
Proof.
  split; [reflexivity |].
  apply (run_refuses_existing_namespace (exec fake Run (boot emptyCluster)).2 nsSpec).
  vm_compute. reflexivity.
Defined.

(** X14. A failing [Run] does not undo what it did.  On a cluster without
    the namespace but with a pod hello-world already filed under it, [Run]
    creates the namespace, fails to create the pod with [AlreadyExists] and
    returns; the namespace it created stays, and the pod that was there is
    untouched. *)
Theorem run_leaves_namespace_behind (w : World Cluster) (existing : v1.Pod) :
  namespaces (cluster w) !! namespaceName = None ->
  pods (cluster w) !! (namespaceName, "hello-world") = Some existing ->
  let final := exec fake Run w in
  final.1 = Some (Errorf "failed to create pod: "
                         (StatusError AlreadyExists "pods hello-world already exists")) /\
  namespaces (cluster final.2) = <[namespaceName := nsSpec]> (namespaces (cluster w)) /\
  pods (cluster final.2) = pods (cluster w) /\
  map request (issued fake Run w) =
    [NamespacesList noOptions; NamespacesCreate nsSpec; PodsCreate namespaceName podSpec].
Proof.
  intros Hns Hpod final. unfold final, issued, Run. run_fake.
  rewrite !(fake_create_namespace _ Hns). run_fake.
  rewrite !(fake_create_pod_exists _ existing) by done. run_fake.
  rewrite <- !app_assoc, drop_app_length. done.
Qed.

Lemma run_leaves_namespace_behind_witness :
  namespaces (cluster (exec fake Run (boot withBare)).2) !! namespaceName = Some nsSpec.
Proof.
  destruct (run_leaves_namespace_behind (boot withBare) bare) as (_ & -> & _);
    [reflexivity | reflexivity |].
  vm_compute. reflexivity.
Defined.

(** X15. [Cleanup] is not atomic either.  When the pod is there and the
    namespace is not, it deletes the pod, fails to delete the namespace with
    [NotFound], returns that error wrapped, and the pod stays deleted. *)
Theorem cleanup_deletes_pod_before_failing (w : World Cluster) (existing : v1.Pod) :
  pods (cluster w) !! (namespaceName, "hello-world") = Some existing ->
  namespaces (cluster w) !! namespaceName = None ->
  let final := exec fake Cleanup w in
  final.1 = Some (Errorf "failed to delete namespace: "
                         (StatusError NotFound "namespaces aerospike not found")) /\
  pods (cluster final.2) = delete (namespaceName, "hello-world") (pods (cluster w)) /\
  pods (cluster final.2) !! (namespaceName, "hello-world") = None /\
  namespaces (cluster final.2) = namespaces (cluster w) /\
  logged fake Cleanup w = [Info [] "deleted hello-world pod"].
Proof.
  intros Hpod Hns final. unfold final, logged, Cleanup. run_fake.
  rewrite !(fake_delete_pod _ existing Hpod). run_fake.
  rewrite !fake_delete_namespace_absent by done. run_fake.
  rewrite <- ?app_assoc, drop_app_length. repeat split; try done.
  apply lookup_delete_eq.
Qed.

Lemma cleanup_deletes_pod_before_failing_witness :
  pods (cluster (exec fake Cleanup (boot withBare)).2) = ∅.
Proof.
  destruct (cleanup_deletes_pod_before_failing (boot withBare) bare) as (_ & -> & _);
    [reflexivity | reflexivity |].
  vm_compute. reflexivity.
Defined.

(** X16. [Cleanup] cannot be repeated: right after a [Cleanup] that
    succeeded, a second one fails at the pod deletion with [NotFound] and
    changes nothing. *)
Theorem cleanup_twice_fails (w : World Cluster) :
  (exec fake Cleanup w).1 = None ->
  let again := exec fake Cleanup (exec fake Cleanup w).2 in
  again.1 = Some (Errorf "failed to delete pod: "
                         (StatusError NotFound "pods hello-world not found")) /\
  cluster again.2 = cluster (exec fake Cleanup w).2.
Proof.
  intros Hok again.
  destruct (fake_Cleanup_returns_nil w Hok) as [[pod Hpod] [ns Hns]].
  unfold again. rewrite (fake_Cleanup_success w pod ns Hpod Hns). cbn [snd].
  unfold Cleanup. run_fake.
  rewrite !fake_delete_pod_absent by apply lookup_delete_eq.
  by run_fake.
Qed.

Lemma cleanup_twice_fails_witness :
  (exec fake Cleanup (exec fake Run (boot emptyCluster)).2).1 = None /\
  (exec fake Cleanup
        (exec fake Cleanup (exec fake Run (boot emptyCluster)).2).2).1 =
    Some (Errorf "failed to delete pod: "
                 (StatusError NotFound "pods hello-world not found")).
Proof.
  assert ((exec fake Cleanup (exec fake Run (boot emptyCluster)).2).1 = None)
    as Hok by reflexivity.
  split; [exact Hok |].
  apply (cleanup_twice_fails (exec fake Run (boot emptyCluster)).2 Hok).
Defined.
